(** * Einops from scratch: [rearrange] on NumPy arrays

    A shallow embedding of the notebook's [rearrange] function (pattern
    tokenizer, axis resolver, execution planner and executor) together with
    the properties of its specification.

    Python values are modelled as follows.
    - [str] is [string]; patterns are taken to be ASCII, and the whitespace
      class is the ASCII part of Python's [str.isspace].
    - [int] is [Z]; array extents ([tensor.shape]) are [nat].
    - [dict] is stdpp's [gmap]; [dim_sizes], [input_dim_to_pos] and the
      keyword arguments [axes_lengths] are only ever looked up by key.
    - A raised exception is the [Raise] case of [result]; the exception
      classes that the function can let escape are the constructors of [exn].
    - NumPy is the array abstraction the function is written against: the
      five primitives it calls, and the assignment into an array that it
      does not call, form the interface [NumPy], which has a value-level
      instance (arrays as shape plus row-major elements) and a store-level
      instance (arrays as mutable objects: references into a store of
      objects that are views of shared buffers). *)

From Stdlib Require Import ZArith Lia Ascii String.
From stdpp Require Import base option list strings pretty gmap fin_maps sorting.

Open Scope Z_scope.
Open Scope list_scope.

(** ** Exceptions *)

(** The conditions under which the notebook raises [EinopsError], one per
    message of the source. *)
Inductive EinopsErrorKind : Type :=
  | UnexpectedAxesLengthsKey   (* "Unexpected axes_lengths keys: ..." *)
  | MissingArrow               (* "Pattern must contain '->': ..." *)
  | MismatchedParentheses      (* "Mismatched parentheses in pattern" *)
  | MultipleEllipsisInput      (* "Multiple ellipses in input pattern" *)
  | EllipsisAsymmetry          (* "Ellipsis must appear in both ..." *)
  | NotEnoughDimensions        (* "Not enough dimensions in tensor" *)
  | MultipleUnknownDimensions  (* "Multiple unknown dimensions in ..." *)
  | NonDivisibleCompositeSize  (* "Cannot divide dimension size ..." *)
  | SizeMismatchComposite      (* "Size mismatch for ..." *)
  | DimensionSizeMismatch      (* "Dimension size mismatch for ..." *)
  | ReshapeIncompatible.       (* "Cannot reshape tensor to shape ..." *)

(** Python exceptions that can leave [rearrange]. [AxisError] is NumPy's
    (a subclass of both [ValueError] and [IndexError]). *)
Inductive exn : Type :=
  | EinopsError (k : EinopsErrorKind)
  | IndexError
  | KeyError (key : string)
  | ValueError
  | AxisError
  | ZeroDivisionError.

Inductive result (X : Type) : Type :=
  | Ok (x : X)
  | Raise (e : exn).
Arguments Ok {X} x.
Arguments Raise {X} e.

#[global] Instance result_ret : MRet result := λ X x, Ok x.
#[global] Instance result_bind : MBind result := λ X Y f m,
  match m with Ok x => f x | Raise e => Raise e end.
#[global] Instance result_fmap : FMap result := λ X Y f m,
  match m with Ok x => Ok (f x) | Raise e => Raise e end.
#[global] Instance result_throw : MThrow exn result := λ X e, Raise e.

(** [raise_if c e] is [if c: raise e]. *)
Definition raise_if (c : bool) (e : exn) : result unit :=
  if c then Raise e else Ok tt.

(** [for x in l: acc = body acc x], stopping at the first exception. *)
Fixpoint for_each {S X : Type} (body : S → X → result S) (acc : S) (l : list X)
  : result S :=
  match l with
  | [] => Ok acc
  | x :: l' => acc' ← body acc x; for_each body acc' l'
  end.

(** ** Python string operations used by the source *)

Module Str.

(** ASCII part of [str.isspace], which is also the class [\s] of [re]. *)
Definition isspace (c : ascii) : bool :=
  let n := nat_of_ascii c in
  ((9 <=? n)%nat && (n <=? 13)%nat) || ((28 <=? n)%nat && (n <=? 32)%nat).

Definition ascii_eqb (a b : ascii) : bool := bool_decide (a = b).

(** [c in s] for a one-character [c]. *)
Fixpoint contains (c : ascii) (s : string) : bool :=
  match s with
  | "" => false
  | String a s' => ascii_eqb a c || contains c s'
  end.

(** [s.startswith(p)] *)
Fixpoint startswith (p s : string) : bool :=
  match p, s with
  | "", _ => true
  | String a p', String b s' => ascii_eqb a b && startswith p' s'
  | String _ _, "" => false
  end.

(** [s.endswith(p)] *)
Definition endswith (p s : string) : bool :=
  startswith (String.rev p) (String.rev s).

(** [s.replace(c, ' ')] for a one-character [c]. *)
Fixpoint blank_char (c : ascii) (s : string) : string :=
  match s with
  | "" => ""
  | String a s' => String (if ascii_eqb a c then " "%char else a) (blank_char c s')
  end.

(** [s.replace('...', new)]: leftmost non-overlapping occurrences. *)
Fixpoint replace_dots (new : string) (s : string) : string :=
  match s with
  | String "." (String "." (String "." s')) => new +:+ replace_dots new s'
  | String a s' => String a (replace_dots new s')
  | "" => ""
  end.

(** [s.split('->')]; [cur] is the reversed text of the current piece. *)
Fixpoint split_arrow_go (cur : string) (s : string) : list string :=
  match s with
  | String "-" (String ">" s') => String.rev cur :: split_arrow_go "" s'
  | String a s' => split_arrow_go (String a cur) s'
  | "" => [String.rev cur]
  end.
Definition split_arrow : string → list string := split_arrow_go "".

(** ['->' in s] *)
Fixpoint has_arrow (s : string) : bool :=
  match s with
  | String "-" (String ">" _) => true
  | String _ s' => has_arrow s'
  | "" => false
  end.

(** [s.lstrip(chars)] for a character class [P]. *)
Fixpoint lstrip (P : ascii → bool) (s : string) : string :=
  match s with
  | String a s' => if P a then lstrip P s' else s
  | "" => ""
  end.
Definition rstrip (P : ascii → bool) (s : string) : string :=
  String.rev (lstrip P (String.rev s)).

(** [s.strip()] and [s.strip('()')] *)
Definition strip (s : string) : string := rstrip isspace (lstrip isspace s).
Definition is_paren (c : ascii) : bool := ascii_eqb c "(" || ascii_eqb c ")".
Definition strip_parens (s : string) : string :=
  rstrip is_paren (lstrip is_paren s).

(** [s.split()]: maximal runs of non-whitespace. *)
Fixpoint split_go (cur : option string) (s : string) : list string :=
  match s with
  | "" => option_list (String.rev <$> cur)
  | String a s' =>
      if isspace a
      then option_list (String.rev <$> cur) ++ split_go None s'
      else split_go (Some (String a (default "" cur))) s'
  end.
Definition split : string → list string := split_go None.

(** Longest prefix of non-whitespace characters and what follows it:
    the match of [\S+] at the start of [s]. *)
Fixpoint span_nonspace (s : string) : string * string :=
  match s with
  | "" => ("", "")
  | String a s' =>
      if isspace a then ("", s)
      else let '(run, rest) := span_nonspace s' in (String a run, rest)
  end.

(** The match of [.*?\)] at the start of [s]: the text up to and including
    the first [)], provided no newline comes before it ([.] does not match
    a newline). *)
Fixpoint lazy_to_close (s : string) : option (string * string) :=
  match s with
  | "" => None
  | String a s' =>
      if ascii_eqb a ")" then Some (")", s')
      else if ascii_eqb a "010" then None
      else '(m, rest) ← lazy_to_close s'; Some (String a m, rest)
  end.

(** [re.findall(r'\(.*?\)|\.\.\.|\S+', s)]: at each position the three
    alternatives are tried in order; a position where none matches (a
    whitespace character) is skipped. Every step consumes at least one
    character, so [fuel] above the length of [s] is never exhausted. *)
Fixpoint findall_go (fuel : nat) (s : string) : list string :=
  match fuel with
  | O => []
  | S fuel' =>
      match s with
      | "" => []
      | String a s' =>
          match (if ascii_eqb a "(" then lazy_to_close s' else None) with
          | Some (m, rest) => String a m :: findall_go fuel' rest
          | None =>
              match s with
              | String "." (String "." (String "." rest)) =>
                  "..." :: findall_go fuel' rest
              | _ =>
                  if isspace a then findall_go fuel' s'
                  else let '(run, rest) := span_nonspace s in
                       run :: findall_go fuel' rest
              end
          end
      end
  end.
Definition findall (s : string) : list string :=
  findall_go (S (String.length s)) s.

End Str.

(** ** Helper functions of the notebook *)

(** [_collect_identifiers] *)
Definition _collect_identifiers (pattern : string) : list string :=
  let clean_pattern :=
    Str.replace_dots " " (Str.blank_char ")" (Str.blank_char "(" pattern)) in
  Str.split clean_pattern.

(** [validate_axes_lengths] *)
Definition validate_axes_lengths (pattern : string) (axes_lengths : gmap string Z)
  : result unit :=
  let pattern_identifiers := _collect_identifiers pattern in
  let extra_keys :=
    filter (λ k, k ∉ pattern_identifiers) (map fst (map_to_list axes_lengths)) in
  raise_if (negb (bool_decide (extra_keys = [])))
           (EinopsError UnexpectedAxesLengthsKey).

(** [tokenize], the local function of [parse_pattern] *)
Definition tokenize (expr : string) : list string :=
  let expr := Str.replace_dots " ... " expr in
  Str.findall (Str.strip expr).

(** [parse_pattern]; unpacking a split with more than two pieces into two
    names is Python's [ValueError]. *)
Definition parse_pattern (pattern : string) : result (list string * list string) :=
  raise_if (negb (Str.has_arrow pattern)) (EinopsError MissingArrow);;
  match Str.split_arrow pattern with
  | [input_part; output_part] => Ok (tokenize input_part, tokenize output_part)
  | _ => Raise ValueError
  end.

(** ** Python list and dictionary access *)

(** [l[i]] for a non-negative [i] *)
Definition py_index {X : Type} (l : list X) (i : nat) : result X :=
  match l !! i with Some x => Ok x | None => Raise IndexError end.

(** [d[k]] *)
Definition py_getitem {V : Type} (d : gmap string V) (k : string) : result V :=
  match d !! k with Some v => Ok v | None => Raise (KeyError k) end.

(** [a % b] and [a // b] on [int]: floor division, as [Z.modulo] and [Z.div],
    except that a zero divisor raises. *)
Definition py_mod (a b : Z) : result Z :=
  if b =? 0 then Raise ZeroDivisionError else Ok (a `mod` b).
Definition py_floordiv (a b : Z) : result Z :=
  if b =? 0 then Raise ZeroDivisionError else Ok (a `div` b).

(** [l.index(x) if x in l else -1] *)
Fixpoint index_or_minus1 (x : string) (l : list string) : Z :=
  match l with
  | [] => -1
  | y :: l' =>
      if bool_decide (y = x) then 0
      else let i := index_or_minus1 x l' in if i <? 0 then -1 else i + 1
  end.

(** [l[:i]] and [l[i:]], where a negative [i] counts from the end *)
Definition slice_until {X : Type} (l : list X) (i : Z) : list X :=
  if i <? 0 then take (length l - Z.to_nat (- i)) l else take (Z.to_nat i) l.
Definition slice_from {X : Type} (l : list X) (i : Z) : list X :=
  if i <? 0 then drop (length l - Z.to_nat (- i)) l else drop (Z.to_nat i) l.

(** ** Pattern validation and ellipsis expansion *)

Definition is_ellipsis (dim : string) : bool := bool_decide (dim = "...").

(** The three checks under "Pattern validation". *)
Definition check_pattern (input_dims output_dims : list string) : result unit :=
  raise_if
    (existsb (λ dim, Str.contains "(" dim && negb (Str.endswith ")" dim))
             (input_dims ++ output_dims))
    (EinopsError MismatchedParentheses);;
  raise_if (1 <? length (filter (λ dim, dim = "...") input_dims))%nat
    (EinopsError MultipleEllipsisInput);;
  raise_if
    (negb (eqb (bool_decide ("..." ∈ input_dims)) (bool_decide ("..." ∈ output_dims))))
    (EinopsError EllipsisAsymmetry).

(** [f'_d{i}'] *)
Definition synthetic (i : nat) : string := "_d" +:+ pretty i.

(** [[f'_d{i}' for i in range(n_ellipsis)]] *)
Definition synthetic_names (n_ellipsis : nat) : list string :=
  synthetic <$> seq 0 n_ellipsis.

(** "Process ellipsis dimensions": the expanded token lists and [n_ellipsis]. *)
Definition expand_ellipsis (ndim : nat) (input_dims output_dims : list string)
  : result (list string * list string * nat) :=
  let input_ellipsis_idx := index_or_minus1 "..." input_dims in
  let output_ellipsis_idx := index_or_minus1 "..." output_dims in
  if 0 <=? input_ellipsis_idx then
    let n_explicit := length (filter (λ d, d ≠ "...") input_dims) in
    let n_ellipsis := Z.of_nat ndim - Z.of_nat n_explicit in
    raise_if (n_ellipsis <? 0) (EinopsError NotEnoughDimensions);;
    let names := synthetic_names (Z.to_nat n_ellipsis) in
    Ok (slice_until input_dims input_ellipsis_idx ++ names
          ++ slice_from input_dims (input_ellipsis_idx + 1),
        slice_until output_dims output_ellipsis_idx ++ names
          ++ slice_from output_dims (output_ellipsis_idx + 1),
        Z.to_nat n_ellipsis)
  else Ok (input_dims, output_dims, 0%nat).

(** ** Axis resolver: "Process input dimensions" *)

(** The tracking variables of the loop over [full_input_dims]. *)
Record resolver_state : Type := {
  dim_sizes : gmap string Z;
  composite_dims : gmap string (list string);
  pos : nat;
  input_dim_to_pos : gmap string nat;
}.

Definition initial_state : resolver_state :=
  {| dim_sizes := ∅; composite_dims := ∅; pos := 0; input_dim_to_pos := ∅ |}.

(** One round of [for comp in components] in the composite branch, on
    [(known_size, unknown, dim_sizes)]. *)
Definition component_step (axes_lengths : gmap string Z)
    (acc : Z * option string * gmap string Z) (comp : string)
  : result (Z * option string * gmap string Z) :=
  let '(known_size, unknown, dim_sizes) := acc in
  match axes_lengths !! comp with
  | Some n => Ok (known_size * n, unknown, <[comp := n]> dim_sizes)
  | None =>
      raise_if (bool_decide (is_Some unknown)) (EinopsError MultipleUnknownDimensions);;
      Ok (known_size, Some comp, dim_sizes)
  end.

(** One round of [for dim in full_input_dims]. *)
Definition process_input_dim (shape : list nat) (axes_lengths : gmap string Z)
    (st : resolver_state) (dim : string) : result resolver_state :=
  if Str.startswith "_d" dim then
    size ← py_index shape (pos st);
    Ok {| dim_sizes := <[dim := Z.of_nat size]> (dim_sizes st);
          composite_dims := composite_dims st;
          pos := S (pos st);
          input_dim_to_pos := <[dim := pos st]> (input_dim_to_pos st) |}
  else if Str.contains "(" dim then
    let components := Str.split (Str.strip_parens dim) in
    total_size ← Z.of_nat <$> py_index shape (pos st);
    '(known_size, unknown, dim_sizes) ←
      for_each (component_step axes_lengths) (1, None, dim_sizes st) components;
    dim_sizes ←
      match unknown with
      | Some unknown =>
          r ← py_mod total_size known_size;
          raise_if (negb (r =? 0)) (EinopsError NonDivisibleCompositeSize);;
          q ← py_floordiv total_size known_size;
          Ok (<[unknown := q]> dim_sizes)
      | None =>
          raise_if (negb (total_size =? known_size)) (EinopsError SizeMismatchComposite);;
          Ok dim_sizes
      end;
    Ok {| dim_sizes := dim_sizes;
          composite_dims := <[dim := components]> (composite_dims st);
          pos := S (pos st);
          input_dim_to_pos :=
            foldl (λ m comp, <[comp := pos st]> m) (input_dim_to_pos st) components |}
  else
    raise_if (length shape <=? pos st)%nat (EinopsError NotEnoughDimensions);;
    size ← Z.of_nat <$> py_index shape (pos st);
    dim_sizes ←
      match axes_lengths !! dim with
      | Some n =>
          raise_if (negb (size =? n) && negb (size =? 1)) (EinopsError DimensionSizeMismatch);;
          Ok (<[dim := n]> (dim_sizes st))
      | None => Ok (<[dim := size]> (dim_sizes st))
      end;
    Ok {| dim_sizes := dim_sizes;
          composite_dims := composite_dims st;
          pos := S (pos st);
          input_dim_to_pos := <[dim := pos st]> (input_dim_to_pos st) |}.

Definition process_input_dims (shape : list nat) (axes_lengths : gmap string Z)
    (full_input_dims : list string) : result resolver_state :=
  for_each (process_input_dim shape axes_lengths) initial_state full_input_dims.

(** ** Execution planner *)

(** The condition guarding the transposition. *)
Definition is_pure_permutation (full_input_dims full_output_dims : list string)
    (input_dim_to_pos : gmap string nat) : bool :=
  negb (existsb (Str.contains "(") (full_input_dims ++ full_output_dims))
  && negb (existsb (λ d, bool_decide (input_dim_to_pos !! d = None))
                   (filter (λ d, d ≠ "...") full_output_dims)).

(** The loop building [permutation], on [(permutation, used_dims)]. *)
Definition permutation_step (input_dim_to_pos : gmap string nat)
    (acc : list nat * gset string) (dim : string) : result (list nat * gset string) :=
  let '(permutation, used_dims) := acc in
  if negb (is_ellipsis dim) && bool_decide (dim ∉ used_dims) then
    p ← py_getitem input_dim_to_pos dim;
    Ok (permutation ++ [p], {[dim]} ∪ used_dims)
  else Ok acc.

Definition build_permutation (input_dim_to_pos : gmap string nat)
    (full_output_dims : list string) : result (list nat) :=
  fst <$> for_each (permutation_step input_dim_to_pos) ([], ∅) full_output_dims.

(** One round of [for i, dim in enumerate(full_output_dims)] under "Calculate
    output shape", on [(final_shape, repeat_indices)]. *)
Definition output_dim_step (axes_lengths dim_sizes : gmap string Z) (n_ellipsis : nat)
    (acc : list Z * list (nat * Z)) (dim : string) : result (list Z * list (nat * Z)) :=
  let '(final_shape, repeat_indices) := acc in
  if is_ellipsis dim then
    final_shape ←
      for_each (λ fs j, s ← py_getitem dim_sizes (synthetic j); Ok (fs ++ [s]))
               final_shape (seq 0 n_ellipsis);
    Ok (final_shape, repeat_indices)
  else if Str.contains "(" dim then
    let components := Str.split (Str.strip_parens dim) in
    size ← for_each (λ size comp, s ← py_getitem dim_sizes comp; Ok (size * s))
                    1 components;
    Ok (final_shape ++ [size], repeat_indices)
  else
    match axes_lengths !! dim with
    | Some n =>
        if bool_decide (dim_sizes !! dim = None) || bool_decide (dim_sizes !! dim = Some 1)
        then
          let final_shape := final_shape ++ [n] in
          Ok (final_shape, repeat_indices ++ [((length final_shape - 1)%nat, n)])
        else
          s ← py_getitem dim_sizes dim; Ok (final_shape ++ [s], repeat_indices)
    | None =>
        s ← py_getitem dim_sizes dim; Ok (final_shape ++ [s], repeat_indices)
    end.

Definition calc_output_shape (axes_lengths dim_sizes : gmap string Z) (n_ellipsis : nat)
    (full_output_dims : list string) : result (list Z * list (nat * Z)) :=
  for_each (output_dim_step axes_lengths dim_sizes n_ellipsis) ([], []) full_output_dims.

(** [sorted(repeat_indices, key=lambda x: -x[0])]: descending target index;
    the sort is stable, so entries with equal index keep their order. *)
Fixpoint insert_desc (x : nat * Z) (l : list (nat * Z)) : list (nat * Z) :=
  match l with
  | [] => [x]
  | y :: l' => if (fst y <=? fst x)%nat then x :: l else y :: insert_desc x l'
  end.
Definition sorted_desc (l : list (nat * Z)) : list (nat * Z) :=
  foldr insert_desc [] l.

(** ** The array abstraction *)

(** What [rearrange] uses of NumPy: the attribute [shape], the functions
    [np.transpose], [np.expand_dims] and [np.repeat], the method [reshape],
    and the control flow of Python around them (sequencing, raising, and
    [try ... except]).

    NumPy's arrays are mutable objects, and the interface has the
    assignment of a scalar to every element of an array, [a.fill(v)] or
    [a[...] = v], which writes through to every array that shares the
    buffer. [rearrange] contains no assignment into an array; the operation
    is here because a statement that [rearrange] leaves the caller's array
    as it was is a statement about a program that had the means to change
    it. *)
Class NumPy (M : Type → Type) (ndarray : Type) : Type := {
  np_mret :: MRet M;
  np_mbind :: MBind M;
  lift : ∀ {X : Type}, result X → M X;
  try_except : ∀ {X : Type}, M X → (exn → M X) → M X;
  np_shape : ndarray → M (list nat);
  np_transpose : ndarray → list nat → M ndarray;
  np_expand_dims : ndarray → nat → M ndarray;
  np_repeat : ndarray → Z → nat → M ndarray;
  np_reshape : ndarray → list Z → M ndarray;
  np_scalar : Type;
  np_fill : ndarray → np_scalar → M unit;
}.

(** ** Executor and the function [rearrange] *)

Section rearrange.
Context {M : Type → Type} {ndarray : Type} `{!NumPy M ndarray}.

(** [for x in l: current = body(current, x)] over array operations *)
Fixpoint for_each_array {X : Type} (body : ndarray → X → M ndarray)
    (current : ndarray) (l : list X) : M ndarray :=
  match l with
  | [] => mret current
  | x :: l' => current ← body current x; for_each_array body current l'
  end.

(** The block under [if repeat_indices:]. *)
Definition apply_repeats (current : ndarray) (repeat_indices : list (nat * Z))
  : M ndarray :=
  match repeat_indices with
  | [] => mret current
  | _ =>
      let sorted_repeat_indices := sorted_desc repeat_indices in
      current ←
        for_each_array (λ current '(idx, _), np_expand_dims current idx)
                       current sorted_repeat_indices;
      for_each_array
        (λ current '(idx, size),
           expanded ← np_expand_dims current idx; np_repeat expanded size idx)
        current sorted_repeat_indices
  end.

(** "Final reshape": a [ValueError] of [reshape] (or of a subclass) is
    re-raised as [EinopsError]. *)
Definition final_reshape (current : ndarray) (final_shape : list Z) : M ndarray :=
  try_except (np_reshape current final_shape)
    (λ e, match e with
          | ValueError | AxisError => lift (Raise (EinopsError ReshapeIncompatible))
          | _ => lift (Raise e)
          end).

(** The executor: the repeat stage followed by the final reshape. *)
Definition execute (current : ndarray) (repeat_indices : list (nat * Z))
    (final_shape : list Z) : M ndarray :=
  current ← apply_repeats current repeat_indices;
  final_reshape current final_shape.

(** The executor as the specification words it: for each instruction in
    descending index order, one new axis of size 1 is inserted at the
    target index and that axis is expanded to the target size; then the
    same reshape. *)
Definition spec_execute (current : ndarray) (repeat_indices : list (nat * Z))
    (final_shape : list Z) : M ndarray :=
  current ←
    for_each_array
      (λ current '(idx, size),
         expanded ← np_expand_dims current idx; np_repeat expanded size idx)
      current (sorted_desc repeat_indices);
  final_reshape current final_shape.

Definition rearrange (tensor : ndarray) (pattern : string)
    (axes_lengths : gmap string Z) : M ndarray :=
  (* Initial validation *)
  lift (validate_axes_lengths pattern axes_lengths);;
  '(input_dims, output_dims) ← lift (parse_pattern pattern);
  (* Pattern validation *)
  lift (check_pattern input_dims output_dims);;
  (* Setup dimension mappings *)
  shape ← np_shape tensor;
  let ndim := length shape in
  (* Process ellipsis dimensions *)
  '(full_input_dims, full_output_dims, n_ellipsis) ←
    lift (expand_ellipsis ndim input_dims output_dims);
  (* Process input dimensions *)
  st ← lift (process_input_dims shape axes_lengths full_input_dims);
  (* Transposition *)
  current ←
    (if is_pure_permutation full_input_dims full_output_dims (input_dim_to_pos st)
     then
       permutation ← lift (build_permutation (input_dim_to_pos st) full_output_dims);
       if (1 <? length permutation)%nat then np_transpose tensor permutation
       else mret tensor
     else mret tensor);
  (* Calculate output shape *)
  '(final_shape, repeat_indices) ←
    lift (calc_output_shape axes_lengths (dim_sizes st) n_ellipsis full_output_dims);
  execute current repeat_indices final_shape.

End rearrange.

(** ** Arrays as values *)

(** An array as its shape and its elements in row-major (C) order. The
    extents of a NumPy array determine its element count, which is the
    well-formedness condition [wf]. *)
Record ndarray (A : Type) : Type := { shape : list nat; data : list A }.
Arguments shape {A} _.
Arguments data {A} _.

Definition prod_list (l : list nat) : nat := foldr Nat.mul 1%nat l.

Definition size {A : Type} (x : ndarray A) : nat := prod_list (shape x).
Definition ndim {A : Type} (x : ndarray A) : nat := length (shape x).
Definition wf {A : Type} (x : ndarray A) : Prop := length (data x) = size x.

(** Flat row-major offset of a multi-index, and back. *)
Fixpoint ravel (shape idx : list nat) : nat :=
  match shape, idx with
  | n :: shape', i :: idx' => (i * prod_list shape' + ravel shape' idx')%nat
  | _, _ => 0%nat
  end.
Fixpoint unravel (shape : list nat) (flat : nat) : list nat :=
  match shape with
  | [] => []
  | n :: shape' =>
      (flat / prod_list shape')%nat :: unravel shape' (flat `mod` prod_list shape')%nat
  end.

(** [x[idx]] for a full multi-index *)
Definition item {A : Type} (x : ndarray A) (idx : list nat) : option A :=
  if bool_decide (length idx = ndim x ∧ Forall2 lt idx (shape x))
  then data x !! ravel (shape x) idx else None.

(** The largest number of axes that NumPy gives an array: 64 since
    NumPy 2.0 (32 before). *)
Definition NPY_MAXDIMS : nat := 64.

Module Value.
Section ops.
Context {A : Type}.

(** Position of [a] in [axes]. *)
Fixpoint position (a : nat) (axes : list nat) : nat :=
  match axes with
  | [] => 0
  | b :: axes' => if (a =? b)%nat then 0 else S (position a axes')
  end.

(** [np.transpose(x, axes)] for non-negative [axes]: axis [k] of the result
    is axis [axes[k]] of [x]. NumPy refuses, in this order, a list of the
    wrong length ("axes don't match array"), an axis out of bounds, and a
    repeated axis. *)
Definition transpose (x : ndarray A) (axes : list nat) : result (ndarray A) :=
  if negb (length axes =? ndim x)%nat then Raise ValueError
  else if existsb (λ a, ndim x <=? a)%nat axes then Raise AxisError
  else if negb (bool_decide (NoDup axes)) then Raise ValueError
  else
    let new_shape := (λ a, default 0%nat (shape x !! a)) <$> axes in
    let source (flat : nat) : nat :=
      let j := unravel new_shape flat in
      ravel (shape x)
            ((λ a, default 0%nat (j !! position a axes)) <$> seq 0 (ndim x)) in
    Ok {| shape := new_shape;
          data := omap (λ flat, data x !! source flat) (seq 0 (size x)) |}.

(** [np.expand_dims(x, axis)] for a non-negative [axis]: the axis is
    normalised against the rank of the result first ([AxisError]); the
    array is then reshaped, which NumPy refuses with a [ValueError] when
    the result would have more than [NPY_MAXDIMS] axes. *)
Definition expand_dims (x : ndarray A) (axis : nat) : result (ndarray A) :=
  if (axis <=? ndim x)%nat then
    if (NPY_MAXDIMS <=? ndim x)%nat then Raise ValueError
    else Ok {| shape := take axis (shape x) ++ 1%nat :: drop axis (shape x);
               data := data x |}
  else Raise AxisError.

(** Elements of [np.repeat]: every run of [inner] consecutive elements
    (one position along the repeated axis) is written [repeats] times. *)
Definition repeat_data (inner repeats count : nat) (d : list A) : list A :=
  omap (λ flat, d !! ((flat / inner / repeats) * inner + flat `mod` inner)%nat)
       (seq 0 (count * repeats)).

(** [np.repeat(x, repeats, axis=axis)] for an integer [repeats] *)
Definition repeat (x : ndarray A) (repeats : Z) (axis : nat) : result (ndarray A) :=
  match shape x !! axis with
  | None => Raise AxisError
  | Some n =>
      if repeats <? 0 then Raise ValueError
      else
        let r := Z.to_nat repeats in
        Ok {| shape := <[axis := (n * r)%nat]> (shape x);
              data := repeat_data (prod_list (drop (S axis) (shape x))) r
                                  (size x) (data x) |}
  end.

(** [x.reshape(newshape)]: a negative entry stands for the one extent that
    is inferred from the element count; the elements keep their row-major
    order. *)
Definition reshape (x : ndarray A) (newshape : list Z) : result (ndarray A) :=
  let s_known := foldr Z.mul 1 (filter (λ d, 0 ≤ d) newshape) in
  let s_original := Z.of_nat (size x) in
  match filter (λ d, d < 0) newshape with
  | [] =>
      if s_original =? s_known
      then Ok {| shape := Z.to_nat <$> newshape; data := data x |}
      else Raise ValueError
  | [_] =>
      if (s_known =? 0) || negb (s_original `mod` s_known =? 0) then Raise ValueError
      else Ok {| shape := (λ d, Z.to_nat (if d <? 0 then s_original `div` s_known else d))
                            <$> newshape;
                 data := data x |}
  | _ => Raise ValueError
  end.

End ops.
End Value.

(** The value-level arrays implement the interface in the exception monad:
    the outcome of every operation, its result or its exception. A value
    is no object that could be assigned to, so of [np_fill] only the outcome
    is there (it returns [None]); its effect is in the store-level instance
    below. *)
#[global] Instance value_numpy {A : Type} : NumPy result (ndarray A) := {|
  lift X m := m;
  try_except X m handler := match m with Ok x => Ok x | Raise e => handler e end;
  np_shape x := Ok (shape x);
  np_transpose := Value.transpose;
  np_expand_dims := Value.expand_dims;
  np_repeat := Value.repeat;
  np_reshape := Value.reshape;
  np_scalar := A;
  np_fill x v := Ok tt;
|}.

(** [np.arange(n).reshape(shape)] *)
Definition arange (shape : list nat) : ndarray Z :=
  {| shape := shape; data := Z.of_nat <$> seq 0 (prod_list shape) |}.

(** ** Arrays as objects in a store *)

(** The caller and [rearrange] hold references to array objects. An array
    object reads and writes a buffer of elements, which it may share with
    other objects: it has its own shape and, for each of its elements in
    row-major order, the offset of that element in the buffer (what its
    strides determine). A store holds the live objects and the buffers; a
    computation takes the store and returns its outcome together with the
    store it leaves behind, also when the outcome is an exception.

    As in NumPy, [np.transpose] and [np.expand_dims] return a view, a new
    object on the buffer of their argument, and [np.repeat] returns a copy,
    a new object on a new buffer. [reshape] returns a view where the new
    shape can be laid over the strides of the object and a copy otherwise;
    strides are not modelled, and the rule that decides between the two is
    a parameter, [reshape_copies]. *)
Module Store.
Abbreviation ref := positive (only parsing).

Record object : Type := { buffer : positive; view : ndarray nat }.

Record store (A : Type) : Type :=
  { objects : gmap positive object; buffers : gmap positive (list A) }.
Arguments objects {A} _.
Arguments buffers {A} _.

Class ReshapeRule : Type := reshape_copies : ndarray nat → list Z → bool.

Section store.
Context {A : Type} `{!ReshapeRule}.

Definition M (X : Type) : Type := store A → result X * store A.

#[global] Instance store_ret : MRet M := λ X x σ, (Ok x, σ).
#[global] Instance store_bind : MBind M := λ X Y f m σ,
  match m σ with
  | (Ok x, σ') => f x σ'
  | (Raise e, σ') => (Raise e, σ')
  end.

Definition lift {X : Type} (m : result X) : M X := λ σ, (m, σ).

Definition try_except {X : Type} (m : M X) (handler : exn → M X) : M X := λ σ,
  match m σ with
  | (Ok x, σ') => (Ok x, σ')
  | (Raise e, σ') => handler e σ'
  end.

(** The array that an object with offsets [v] shows of the buffer [b]. *)
Definition value_of (b : list A) (v : ndarray nat) : ndarray A :=
  {| shape := shape v; data := omap (λ i, b !! i) (data v) |}.

(** The array behind a reference, as the caller reads it. *)
Definition deref (σ : store A) (r : ref) : option (ndarray A) :=
  o ← objects σ !! r; b ← buffers σ !! buffer o; Some (value_of b (view o)).

(** Dereferencing. Python has no dangling references: the second case is
    not reached from a reference that was obtained from the store. *)
Definition get (r : ref) : M object := λ σ,
  match objects σ !! r with
  | Some o => (Ok o, σ)
  | None => (Raise (KeyError ""), σ)
  end.
Definition load (o : object) : M (list A) := λ σ,
  match buffers σ !! buffer o with
  | Some b => (Ok b, σ)
  | None => (Raise (KeyError ""), σ)
  end.

(** A new object, and a new buffer. *)
Definition new_object (o : object) : M ref := λ σ,
  let r := fresh (dom (objects σ)) in
  (Ok r, {| objects := <[r := o]> (objects σ); buffers := buffers σ |}).
Definition new_buffer (b : list A) : M positive := λ σ,
  let k := fresh (dom (buffers σ)) in
  (Ok k, {| objects := objects σ; buffers := <[k := b]> (buffers σ) |}).

(** A new array with its own buffer. *)
Definition new_array (y : ndarray A) : M ref :=
  k ← new_buffer (data y);
  new_object {| buffer := k;
                view := {| shape := shape y; data := seq 0 (length (data y)) |} |}.

(** The result of an operation as a view: the operation rearranges the
    offsets of the object, and the new object reads the same buffer. *)
Definition as_view (f : ndarray nat → result (ndarray nat)) (r : ref) : M ref :=
  o ← get r; v ← lift (f (view o));
  new_object {| buffer := buffer o; view := v |}.

(** The result of an operation as a copy. *)
Definition as_copy (f : ndarray A → result (ndarray A)) (r : ref) : M ref :=
  o ← get r; b ← load o; y ← lift (f (value_of b (view o))); new_array y.

Definition np_shape (r : ref) : M (list nat) := o ← get r; mret (shape (view o)).
Definition np_transpose (r : ref) (axes : list nat) : M ref :=
  as_view (λ v, Value.transpose v axes) r.
Definition np_expand_dims (r : ref) (axis : nat) : M ref :=
  as_view (λ v, Value.expand_dims v axis) r.
Definition np_repeat (r : ref) (repeats : Z) (axis : nat) : M ref :=
  as_copy (λ x, Value.repeat x repeats axis) r.
Definition np_reshape (r : ref) (newshape : list Z) : M ref :=
  o ← get r;
  if reshape_copies (view o) newshape
  then as_copy (λ x, Value.reshape x newshape) r
  else as_view (λ v, Value.reshape v newshape) r.

(** Writing a buffer back. *)
Definition put_buffer (k : positive) (b : list A) : M unit := λ σ,
  (Ok tt, {| objects := objects σ; buffers := <[k := b]> (buffers σ) |}).

(** [a.fill(v)]: every element of the object is overwritten in the buffer. *)
Definition np_fill (r : ref) (v : A) : M unit :=
  o ← get r; b ← load o;
  put_buffer (buffer o) (foldr (λ i b, <[i := v]> b) b (data (view o))).

#[global] Instance store_numpy : NumPy M ref :=
  Build_NumPy M ref store_ret store_bind (@lift) (@try_except)
              np_shape np_transpose np_expand_dims np_repeat np_reshape
              A np_fill.

(** Every object and every buffer of [σ] is in [σ'] as it was. *)
Definition extends (σ σ' : store A) : Prop :=
  objects σ ⊆ objects σ' ∧ buffers σ ⊆ buffers σ'.

(** Every object has its buffer, and its offsets are within it. *)
Definition valid (σ : store A) : Prop :=
  ∀ r o, objects σ !! r = Some o →
    ∃ b, buffers σ !! buffer o = Some b
         ∧ Forall (λ i, (i < length b)%nat) (data (view o)).
End store.
End Store.

(** ** Notions used to state the properties *)

(** The members of a composite token. *)
Definition components_of (dim : string) : list string :=
  Str.split (Str.strip_parens dim).

(** The leaf names that one input token binds: a token starting with [_d] and
    a plain token bind themselves, a composite token binds its members. *)
Definition bound_names (dim : string) : list string :=
  if Str.startswith "_d" dim then [dim]
  else if Str.contains "(" dim then components_of dim
  else [dim].

(** Members of a composite token without a caller-supplied length, and the
    product of the lengths of the others. *)
Definition unknown_members (axes_lengths : gmap string Z) (dim : string) : list string :=
  filter (λ comp, axes_lengths !! comp = None) (components_of dim).
Definition known_product (axes_lengths : gmap string Z) (dim : string) : Z :=
  foldr Z.mul 1 (omap (λ comp, axes_lengths !! comp) (components_of dim)).

(** A token that the resolver treats as composite. *)
Definition is_composite (dim : string) : bool :=
  negb (Str.startswith "_d" dim) && Str.contains "(" dim.

(** [dim_sizes] after the members with a caller-supplied length are bound. *)
Definition bind_known (axes_lengths dim_sizes : gmap string Z) (comps : list string)
  : gmap string Z :=
  foldl (λ m comp, match axes_lengths !! comp with
                   | Some n => <[comp := n]> m
                   | None => m
                   end) dim_sizes comps.

(** The array [np.expand_dims(x, idx)] when [idx] is in range and [x] has
    fewer than [NPY_MAXDIMS] axes. *)
Definition expanded {A : Type} (x : ndarray A) (idx : nat) : ndarray A :=
  {| shape := take idx (shape x) ++ 1%nat :: drop idx (shape x); data := data x |}.

(** The pattern that merges the last two axes behind an ellipsis. *)
Definition merge_pattern : string := "... h w -> ... (h w)".

(** A computation that leaves every object and every buffer of the store
    as it found it, whatever its outcome. *)
Definition preserves (A : Type) {X : Type} (m : Store.M (A:=A) X) : Prop :=
  ∀ σ, Store.extends σ (m σ).2.

(** The store-level computation [ms], run in [σ], has the outcome of the
    value-level computation [mv]: the same exception, or a reference to an
    object that shows the value, in a store that extends [σ]. *)
Definition agrees {A : Type} (ms : Store.M (A:=A) positive) (mv : result (ndarray A))
    (σ : Store.store A) : Prop :=
  ∃ σ', Store.extends σ σ' ∧ Store.valid σ' ∧
    match mv with
    | Ok y => ∃ r, ms σ = (Ok r, σ') ∧ Store.deref σ' r = Some y
    | Raise e => ms σ = (Raise e, σ')
    end.

(** A program over the interface that is not [rearrange]: it assigns a
    scalar into the transposed view of its argument. *)
Definition fill_transposed {M : Type → Type} {ndarray : Type} `{!NumPy M ndarray}
    (tensor : ndarray) (v : np_scalar) : M unit :=
  y ← np_transpose tensor [1; 0]%nat; np_fill y v.

(** A rule for [reshape] that never copies, and a store with one matrix. *)
Definition never_copies : Store.ReshapeRule := λ _ _, false.
Definition one_matrix : Store.store Z :=
  {| Store.objects := {[ 1%positive :=
                           {| Store.buffer := 1%positive;
                              Store.view := {| shape := [2; 3]%nat;
                                               data := seq 0 6 |} |} ]};
     Store.buffers := {[ 1%positive := [0; 1; 2; 3; 4; 5] ]} |}.

(** ** Notions of the further properties *)

(** The text begins with [>]. *)
Definition starts_gt (s : string) : bool :=
  match s with String ">" _ => true | _ => false end.

Definition is_plain (dim : string) : bool :=
  negb (Str.startswith "_d" dim) && negb (Str.contains "(" dim).

(** Descending target index. *)
Definition desc (a b : nat * Z) : Prop := (fst b ≤ fst a)%nat.

(** The transposed array of a matrix. *)
Definition transposed2 {A : Type} (x : ndarray A) (h w : nat) : ndarray A :=
  {| shape := [w; h];
     data := omap (λ flat, data x !! ((flat `mod` h) * w + flat / h)%nat)
                  (seq 0 (h * w)) |}.

(** Evaluate a stage of [rearrange] that does not touch the elements. *)
Ltac stage m r :=
  let H := fresh "Hstage" in
  assert (H : m = r) by (vm_compute; reflexivity);
  rewrite H; clear H;
  cbn [lift value_numpy mbind np_mbind result_bind mret np_mret result_ret np_shape
       shape data dim_sizes input_dim_to_pos pos composite_dims].

(** * Properties *)

(** ** The model against the notebook's tests *)

Example parse_transpose :
  parse_pattern "b c h w -> b (h w) c" = Ok (["b"; "c"; "h"; "w"], ["b"; "(h w)"; "c"]).
Proof. vm_compute. reflexivity. Qed.

Example parse_ellipsis :
  parse_pattern "...h w->...(h  w)" = Ok (["..."; "h"; "w"], ["..."; "(h  w)"]).
Proof. vm_compute. reflexivity. Qed.

Example parse_glued_paren :
  parse_pattern "a(b c) -> a b c" = Ok (["a(b"; "c)"], ["a"; "b"; "c"]).
Proof. vm_compute. reflexivity. Qed.

Example parse_two_arrows : parse_pattern "a -> b -> c" = Raise ValueError.
Proof. vm_compute. reflexivity. Qed.

Example test_basic_transposition_with_values :
  rearrange {| shape := [2; 2]%nat; data := [1; 2; 3; 4] |} "a b -> b a" ∅
  = Ok {| shape := [2; 2]%nat; data := [1; 3; 2; 4] |}.
Proof. vm_compute. reflexivity. Qed.

Example transpose_three_axes :
  rearrange (arange [2; 3; 4]%nat) "a b c -> c a b" ∅
  = Ok {| shape := [4; 2; 3]%nat;
          data := [0; 4; 8; 12; 16; 20; 1; 5; 9; 13; 17; 21;
                   2; 6; 10; 14; 18; 22; 3; 7; 11; 15; 19; 23] |}.
Proof. vm_compute. reflexivity. Qed.

Example test_nested_splitting :
  shape <$> rearrange (arange [2; 3; 4; 5]%nat) "b (c1 c2) h w -> b c1 c2 h w"
                      {[ "c1" := 3 ]}
  = Ok [2; 3; 1; 4; 5]%nat.
Proof. vm_compute. reflexivity. Qed.

Example test_parametric_ellipsis :
  shape <$> rearrange (arange [2; 4; 6; 3]%nat)
                      "... (h h2) (w w2) c -> ... h w (c h2 w2)"
                      {[ "h2" := 2; "w2" := 3 ]}
  = Ok [2; 2; 2; 18]%nat.
Proof. vm_compute. reflexivity. Qed.

Example test_leading_ellipsis :
  shape <$> rearrange (arange [2; 3; 4; 5]%nat) "... h w -> h w ..." ∅
  = Ok [4; 5; 2; 3]%nat.
Proof. vm_compute. reflexivity. Qed.

Example test_error_insufficient_dims :
  rearrange (arange [3; 4]%nat) "a b c -> c b a" ∅
  = Raise (EinopsError NotEnoughDimensions).
Proof. vm_compute. reflexivity. Qed.

Example test_error_multiple_unknowns :
  rearrange (arange [12; 10]%nat) "(a b c) d -> a b c d" ∅
  = Raise (EinopsError MultipleUnknownDimensions).
Proof. vm_compute. reflexivity. Qed.

Example test_basic_errors :
  rearrange (arange [3; 4]%nat) "a (b c) -> a b c" {[ "b" := 3 ]}
  = Raise (EinopsError NonDivisibleCompositeSize).
Proof. vm_compute. reflexivity. Qed.

Example test_zero_dim_arrays :
  rearrange {| shape := []; data := [5] |} "... -> ..." ∅
  = Ok {| shape := []; data := [5] |}.
Proof. vm_compute. reflexivity. Qed.

Example test_singleton_dimensions :
  shape <$> rearrange (arange [3; 1; 5]%nat) "a 1 c -> a c 1 1" ∅
  = Ok [3; 5; 1; 1]%nat.
Proof. vm_compute. reflexivity. Qed.

(** ** Auxiliary facts: loops, strings, lists *)

Lemma prod_list_app l1 l2 : prod_list (l1 ++ l2) = (prod_list l1 * prod_list l2)%nat.
Proof. induction l1 as [|a l1 IH]; simpl; [lia|]. rewrite IH. lia. Qed.

Lemma for_each_app {S X} (body : S → X → result S) l1 l2 acc :
  for_each body acc (l1 ++ l2) = (acc' ← for_each body acc l1; for_each body acc' l2).
Proof.
  revert acc. induction l1 as [|x l1 IH]; intros acc; simpl; [done|].
  destruct (body acc x); simpl; [apply IH|done].
Qed.

Lemma startswith_app p s : Str.startswith p (p +:+ s) = true.
Proof.
  induction p as [|a p IH]; simpl; [done|].
  unfold Str.ascii_eqb. rewrite bool_decide_eq_true_2 by done. exact IH.
Qed.

(** *** The tokenizer's scan *)

Lemma lazy_to_close_length s m rest :
  Str.lazy_to_close s = Some (m, rest) → (String.length rest < String.length s)%nat.
Proof.
  revert m rest. induction s as [|a s IH]; intros m rest; simpl; [done|].
  destruct (Str.ascii_eqb a ")"); [intros [= _ <-]; lia|].
  destruct (Str.ascii_eqb a "010"); [done|].
  destruct (Str.lazy_to_close s) as [[m' rest']|]; [|done].
  simpl. intros [= _ <-]. specialize (IH _ _ eq_refl). lia.
Qed.

Lemma span_nonspace_length s :
  (String.length (Str.span_nonspace s).2 ≤ String.length s)%nat.
Proof.
  induction s as [|a s IH]; simpl; [lia|].
  destruct (Str.isspace a); simpl; [lia|].
  destruct (Str.span_nonspace s) as [run rest]. simpl in *. lia.
Qed.

Lemma span_nonspace_progress a s :
  Str.isspace a = false →
  (String.length (Str.span_nonspace (String a s)).2 < String.length (String a s))%nat.
Proof.
  intros Ha. simpl. rewrite Ha.
  pose proof (span_nonspace_length s) as H.
  destruct (Str.span_nonspace s) as [run rest]. simpl in *. lia.
Qed.

(** The scan never runs out of fuel: any two amounts of fuel above the length
    of the text give the same tokens. *)
Lemma findall_go_fuel n : ∀ m s,
  (String.length s < n)%nat → (String.length s < m)%nat →
  Str.findall_go n s = Str.findall_go m s.
Proof.
  induction n as [|n IH]; intros m s Hn Hm; [lia|].
  destruct m as [|m]; [lia|].
  destruct s as [|a s]; [done|]. cbn [Str.findall_go].
  destruct (if Str.ascii_eqb a "(" then Str.lazy_to_close s else None)
    as [[tok rest]|] eqn:Hclose.
  - f_equal. destruct (Str.ascii_eqb a "("); [|done].
    apply lazy_to_close_length in Hclose. simpl in *. apply IH; lia.
  - assert (Hrest : ∀ t, (String.length t < String.length (String a s))%nat →
              Str.findall_go n t = Str.findall_go m t)
      by (intros t Ht; simpl in *; apply IH; lia).
    assert (Hdefault :
      (if Str.isspace a then Str.findall_go n s
       else let '(run, rest) := Str.span_nonspace (String a s) in
            run :: Str.findall_go n rest)
      = (if Str.isspace a then Str.findall_go m s
         else let '(run, rest) := Str.span_nonspace (String a s) in
              run :: Str.findall_go m rest)).
    { destruct (Str.isspace a) eqn:Ha.
      - apply Hrest. simpl. lia.
      - pose proof (span_nonspace_progress a s Ha) as Hp.
        destruct (Str.span_nonspace (String a s)) as [run rest].
        f_equal. apply Hrest. exact Hp. }
    destruct (Ascii.ascii_dec a ".") as [->|Hne].
    + destruct s as [|b s]; [exact Hdefault|].
      destruct (Ascii.ascii_dec b ".") as [->|Hne2].
      * destruct s as [|c s]; [exact Hdefault|].
        destruct (Ascii.ascii_dec c ".") as [->|Hne3].
        -- f_equal. apply Hrest. simpl. lia.
        -- destruct c as [[] [] [] [] [] [] [] []]; try exact Hdefault; done.
      * destruct b as [[] [] [] [] [] [] [] []]; try exact Hdefault; done.
    + destruct a as [[] [] [] [] [] [] [] []]; try exact Hdefault; done.
Qed.

Lemma findall_fuel s n :
  (String.length s < n)%nat → Str.findall_go n s = Str.findall s.
Proof. intros Hn. unfold Str.findall. apply findall_go_fuel; lia. Qed.

(** *** Synthetic names *)

Lemma contains_paren_digit x : Str.ascii_eqb (pretty_N_char x) "(" = false.
Proof. unfold pretty_N_char. by repeat case_match. Qed.

Lemma contains_paren_pretty_go x s :
  Str.contains "(" (pretty_N_go x s) = Str.contains "(" s.
Proof.
  revert s. induction (N.lt_wf_0 x) as [x _ IH]; intros s.
  assert (x = 0 ∨ 0 < x)%N as [->|?] by lia.
  - by rewrite pretty_N_go_0.
  - rewrite pretty_N_go_step by done. rewrite IH by (by apply N.div_lt).
    simpl. by rewrite contains_paren_digit.
Qed.

Lemma synthetic_no_paren i : Str.contains "(" (synthetic i) = false.
Proof.
  unfold synthetic, pretty, pretty_nat, pretty, pretty_N.
  case_decide; [done|]. unfold String.app; simpl. apply contains_paren_pretty_go.
Qed.

Lemma synthetic_starts_with_d i : Str.startswith "_d" (synthetic i) = true.
Proof. apply startswith_app. Qed.

Lemma synthetic_not_ellipsis i : is_ellipsis (synthetic i) = false.
Proof. apply bool_decide_eq_false_2. unfold synthetic. discriminate. Qed.

Lemma synthetic_inj i j : synthetic i = synthetic j → i = j.
Proof. unfold synthetic. intros H. by simplify_eq. Qed.

Lemma synthetic_ne_plain i (name : string) :
  Str.startswith "_d" name = false → synthetic i ≠ name.
Proof. intros H <-. by rewrite synthetic_starts_with_d in H. Qed.

(** ** The axis resolver *)

(** C10. An input token that begins with [_d] is resolved by the branch
    written for the synthetic ellipsis names, whoever wrote it: it is bound
    to the input size at the cursor, whatever [axes_lengths] holds for it,
    and a cursor past the shape ends in [IndexError], not in
    [EinopsError]. Hence a caller's length for ['_d0'] that disagrees with
    the shape is accepted where the same length for ['a'] is refused; an
    out-of-range ['_d0'] raises [IndexError] where ['b'] raises "Not enough
    dimensions"; and a user axis ['_d0'] next to an ellipsis collides with
    the first generated name, so that the call on shape (2,3) fails where
    the same pattern with the axis named ['a'] succeeds. *)
Theorem underscore_d_token_resolved_as_synthetic {A : Type} :
  (∀ (shape : list nat) (axes_lengths : gmap string Z) st suffix,
     process_input_dim shape axes_lengths st ("_d" +:+ suffix) =
       match shape !! pos st with
       | Some n =>
           Ok {| dim_sizes := <["_d" +:+ suffix := Z.of_nat n]> (dim_sizes st);
                 composite_dims := composite_dims st;
                 pos := S (pos st);
                 input_dim_to_pos :=
                   <["_d" +:+ suffix := pos st]> (input_dim_to_pos st) |}
       | None => Raise IndexError
       end)
  ∧ (∀ d : list A,
       rearrange {| shape := [2]%nat; data := d |} "_d0 -> _d0" {[ "_d0" := 5 ]}
       = Ok {| shape := [2]%nat; data := d |}
       ∧ rearrange {| shape := [2]%nat; data := d |} "a -> a" {[ "a" := 5 ]}
         = Raise (EinopsError DimensionSizeMismatch))
  ∧ (∀ d : list A,
       rearrange {| shape := [3]%nat; data := d |} "a _d0 -> a _d0" ∅
       = Raise IndexError
       ∧ rearrange {| shape := [3]%nat; data := d |} "a b -> a b" ∅
         = Raise (EinopsError NotEnoughDimensions))
  ∧ synthetic 0 = "_d0"
  ∧ expand_ellipsis 2 ["_d0"; "..."] ["_d0"; "..."]
    = Ok (["_d0"; "_d0"], ["_d0"; "_d0"], 1%nat)
  ∧ (∀ d : list A,
       rearrange {| shape := [2; 3]%nat; data := d |} "_d0 ... -> _d0 ..." ∅
       = Raise (EinopsError ReshapeIncompatible)
       ∧ shape <$> rearrange {| shape := [2; 3]%nat; data := d |} "a ... -> a ..." ∅
         = Ok [2; 3]%nat).
Proof.
  split; [|split; [|split; [|split; [|split]]]].
  - intros shape axes_lengths st suffix.
    unfold process_input_dim. rewrite startswith_app.
    unfold py_index. by destruct (shape !! pos st).
  - intros d. split; vm_compute; reflexivity.
  - intros d. split; vm_compute; reflexivity.
  - vm_compute. reflexivity.
  - vm_compute. reflexivity.
  - intros d. split; vm_compute; reflexivity.
Qed.

Lemma component_loop kw comps : ∀ known unknown ds,
  for_each (component_step kw) (known, unknown, ds) comps =
  match filter (λ c, kw !! c = None) comps, unknown with
  | [], _ => Ok (known * foldr Z.mul 1 (omap (λ c, kw !! c) comps), unknown, bind_known kw ds comps)
  | [u], None => Ok (known * foldr Z.mul 1 (omap (λ c, kw !! c) comps), Some u, bind_known kw ds comps)
  | _, _ => Raise (EinopsError MultipleUnknownDimensions)
  end.
Proof.
  induction comps as [|c comps IH]; intros known unknown ds.
  - simpl. f_equal. f_equal. f_equal. lia.
  - change (for_each (component_step kw) (known, unknown, ds) (c :: comps))
      with (component_step kw (known, unknown, ds) c
            ≫= λ acc', for_each (component_step kw) acc' comps).
    change (bind_known kw ds (c :: comps))
      with (bind_known kw (match kw !! c with Some n => <[c:=n]> ds | None => ds end) comps).
    set (loop := for_each (component_step kw)) in *.
    unfold component_step. rewrite filter_cons.
    cbn [omap list_omap foldr].
    destruct (kw !! c) as [n|] eqn:Hc.
    + case_decide; [congruence|]. cbn [mbind result_bind]. rewrite IH.
      cbn [foldr]. rewrite Z.mul_assoc. done.
    + case_decide; [|congruence].
      destruct unknown as [u0|]; cbn.
      * by destruct (filter _ comps) as [|? [|? ?]].
      * rewrite IH. by destruct (filter _ comps) as [|? [|? ?]].
Qed.

Lemma known_product_pos (kw : gmap string Z) (comps : list string) :
  (∀ name n, kw !! name = Some n → 0 < n) →
  0 < foldr Z.mul 1 (omap (λ c, kw !! c) comps).
Proof.
  intros Hpos. induction comps as [|c comps IH]; simpl; [lia|].
  destruct (kw !! c) as [n|] eqn:Hc; simpl; [|done].
  apply Z.mul_pos_pos; eauto.
Qed.

(** C4. For a composite input token on an axis of size [total], and
    positive caller-supplied lengths: with two or more members without a
    length the resolver raises "Multiple unknown dimensions"; with exactly
    one, that member is bound to [total] divided by the product of the
    lengths of the others when the division is exact, and the resolver
    raises "Cannot divide dimension size" when it is not; with none, the
    resolver goes on when [total] is that product and raises "Size mismatch"
    when it is not. *)
Theorem composite_token_resolution
    (shape : list nat) (kw : gmap string Z) st dim total :
  is_composite dim = true →
  shape !! pos st = Some total →
  (∀ name n, kw !! name = Some n → 0 < n) →
  match unknown_members kw dim with
  | _ :: _ :: _ =>
      process_input_dim shape kw st dim = Raise (EinopsError MultipleUnknownDimensions)
  | [unknown] =>
      if decide (Z.of_nat total `mod` known_product kw dim = 0) then
        ∃ st', process_input_dim shape kw st dim = Ok st'
               ∧ dim_sizes st' !! unknown = Some (Z.of_nat total `div` known_product kw dim)
               ∧ known_product kw dim * (Z.of_nat total `div` known_product kw dim) = Z.of_nat total
      else process_input_dim shape kw st dim = Raise (EinopsError NonDivisibleCompositeSize)
  | [] =>
      if decide (Z.of_nat total = known_product kw dim) then
        ∃ st', process_input_dim shape kw st dim = Ok st'
      else process_input_dim shape kw st dim = Raise (EinopsError SizeMismatchComposite)
  end.
Proof.
  unfold is_composite, unknown_members, known_product, components_of.
  intros [Hd Hc]%andb_true_iff Htotal Hpos.
  apply negb_true_iff in Hd.
  unfold process_input_dim. rewrite Hd, Hc.
  unfold py_index. rewrite Htotal. simpl.
  rewrite component_loop.
  set (comps := Str.split (Str.strip_parens dim)).
  pose proof (known_product_pos kw comps Hpos) as HK.
  set (K := foldr Z.mul 1 (omap (λ c, kw !! c) comps)) in *.
  destruct (filter _ comps) as [|u [|u' l]]; simpl; [| |done].
  - rewrite Z.mul_1_l. case_decide as Heq.
    + rewrite (proj2 (Z.eqb_eq _ _) Heq). simpl. eauto.
    + rewrite (proj2 (Z.eqb_neq _ _) Heq). done.
  - rewrite Z.mul_1_l. unfold py_mod, py_floordiv.
    rewrite (proj2 (Z.eqb_neq K 0)) by lia. simpl.
    case_decide as Heq.
    + rewrite Heq. simpl. eexists. split; [done|]. simpl. split.
      * apply lookup_insert_eq.
      * symmetry. apply Z_div_exact_full_2; [lia|done].
    + rewrite (proj2 (Z.eqb_neq _ _) Heq). done.
Qed.

Lemma composite_token_resolution_witness :
  match unknown_members {[ "h" := 3 ]} "(h w)" with
  | _ :: _ :: _ =>
      process_input_dim [12; 10]%nat {[ "h" := 3 ]} initial_state "(h w)"
      = Raise (EinopsError MultipleUnknownDimensions)
  | [unknown] =>
      if decide (Z.of_nat 12 `mod` known_product {[ "h" := 3 ]} "(h w)" = 0) then
        ∃ st', process_input_dim [12; 10]%nat {[ "h" := 3 ]} initial_state "(h w)" = Ok st'
               ∧ dim_sizes st' !! unknown
                 = Some (Z.of_nat 12 `div` known_product {[ "h" := 3 ]} "(h w)")
               ∧ known_product {[ "h" := 3 ]} "(h w)"
                 * (Z.of_nat 12 `div` known_product {[ "h" := 3 ]} "(h w)") = Z.of_nat 12
      else process_input_dim [12; 10]%nat {[ "h" := 3 ]} initial_state "(h w)"
           = Raise (EinopsError NonDivisibleCompositeSize)
  | [] =>
      if decide (Z.of_nat 12 = known_product {[ "h" := 3 ]} "(h w)") then
        ∃ st', process_input_dim [12; 10]%nat {[ "h" := 3 ]} initial_state "(h w)" = Ok st'
      else process_input_dim [12; 10]%nat {[ "h" := 3 ]} initial_state "(h w)"
           = Raise (EinopsError SizeMismatchComposite)
  end.
Proof.
  apply (composite_token_resolution [12; 10]%nat {[ "h" := 3 ]} initial_state "(h w)" 12%nat).
  - reflexivity.
  - reflexivity.
  - intros name n [_ <-]%lookup_singleton_Some. lia.
Defined.

Lemma lookup_foldl_insert (m : gmap string nat) (names : list string) (p : nat) name :
  foldl (λ m comp, <[comp := p]> m) m names !! name
  = if decide (name ∈ names) then Some p else m !! name.
Proof.
  revert m. induction names as [|c names IH]; intros m; cbn [foldl].
  - case_decide as H; [by apply elem_of_nil in H|done].
  - rewrite IH.
    destruct (decide (name ∈ names)) as [Hin|Hin],
             (decide (name ∈ c :: names)) as [Hin'|Hin']; try done.
    + exfalso. apply Hin'. by right.
    + apply elem_of_cons in Hin' as [->|?]; [apply lookup_insert_eq|done].
    + apply lookup_insert_ne. intros ->. apply Hin'. left.
Qed.

(** One round of the resolver: the cursor moves by one and the names of the
    token are bound to the cursor's position, the others keep theirs. *)
Lemma process_input_dim_position (shape : list nat) (kw : gmap string Z) st dim st' name :
  process_input_dim shape kw st dim = Ok st' →
  pos st' = S (pos st)
  ∧ input_dim_to_pos st' !! name
    = if decide (name ∈ bound_names dim) then Some (pos st)
      else input_dim_to_pos st !! name.
Proof.
  unfold process_input_dim, bound_names, components_of.
  destruct (Str.startswith "_d" dim).
  - destruct (py_index shape (pos st)); [|done]. simpl. intros [= <-]; simpl.
    split; [done|]. rewrite lookup_insert.
    destruct (decide (dim = name)) as [Heq|Hne],
             (decide (name ∈ [dim])) as [Hin|Hin]; try done.
    + exfalso. apply Hin. subst. left.
    + apply list_elem_of_singleton in Hin. congruence.
  - destruct (Str.contains "(" dim).
    + destruct (py_index shape (pos st)); [|done]. simpl.
      destruct (for_each _ _ _) as [[[known unknown] ds]|]; [|done]. simpl.
      match goal with |- (?m ≫= _) = _ → _ => destruct m; [|done] end.
      simpl. intros [= <-]; simpl. split; [done|].
      apply lookup_foldl_insert.
    + destruct (raise_if _ _); [|done]. simpl.
      destruct (py_index shape (pos st)); [|done]. simpl.
      match goal with |- (?m ≫= _) = _ → _ => destruct m; [|done] end.
      simpl. intros [= <-]; simpl. split; [done|]. rewrite lookup_insert.
      destruct (decide (dim = name)) as [Heq|Hne],
               (decide (name ∈ [dim])) as [Hin|Hin]; try done.
      * exfalso. apply Hin. subst. left.
      * apply list_elem_of_singleton in Hin. congruence.
Qed.

Lemma process_input_dims_unbound (shape : list nat) (kw : gmap string Z) dims name :
  ∀ st st',
  for_each (process_input_dim shape kw) st dims = Ok st' →
  (∀ dim, dim ∈ dims → name ∉ bound_names dim) →
  input_dim_to_pos st' !! name = input_dim_to_pos st !! name.
Proof.
  induction dims as [|d dims IH]; intros st st'; simpl.
  - by intros [= <-].
  - destruct (process_input_dim shape kw st d) as [st1|] eqn:Hd; [|done]. simpl.
    intros Hrest Hno.
    rewrite (IH _ _ Hrest) by (intros; apply Hno; by right).
    destruct (process_input_dim_position _ _ _ _ _ name Hd) as [_ ->].
    by rewrite decide_False by (apply Hno; left).
Qed.

Lemma process_input_dims_last (shape : list nat) (kw : gmap string Z) dims name :
  ∀ st st' i dim,
  for_each (process_input_dim shape kw) st dims = Ok st' →
  dims !! i = Some dim → name ∈ bound_names dim →
  (∀ dim', dim' ∈ drop (S i) dims → name ∉ bound_names dim') →
  input_dim_to_pos st' !! name = Some (pos st + i)%nat.
Proof.
  induction dims as [|d dims IH]; intros st st' i dim; simpl; [done|].
  destruct (process_input_dim shape kw st d) as [st1|] eqn:Hd; [|done]. simpl.
  intros Hrest Hi Hin Hlater.
  destruct (process_input_dim_position _ _ _ _ _ name Hd) as [Hpos Hlook].
  destruct i as [|i]; simpl in *.
  - injection Hi as ->. rewrite drop_0 in Hlater.
    rewrite (process_input_dims_unbound _ _ _ _ _ _ Hrest Hlater), Hlook.
    rewrite decide_True by done. f_equal. lia.
  - rewrite (IH _ _ _ _ Hrest Hi Hin Hlater), Hpos. f_equal. lia.
Qed.

(** C2 (amended). When the resolver has gone through the input tokens, the
    InputPosition mapping holds, for a leaf name, the 0-based position of
    the last token that binds it, and the entry that the permutation loop
    appends for that name is this position. *)
Theorem input_position_is_last_occurrence
    (shape : list nat) (kw : gmap string Z) full_input_dims st i dim name :
  process_input_dims shape kw full_input_dims = Ok st →
  full_input_dims !! i = Some dim → name ∈ bound_names dim →
  (∀ dim', dim' ∈ drop (S i) full_input_dims → name ∉ bound_names dim') →
  input_dim_to_pos st !! name = Some i
  ∧ ∀ permutation used_dims,
      name ≠ "..." → name ∉ used_dims →
      permutation_step (input_dim_to_pos st) (permutation, used_dims) name
      = Ok (permutation ++ [i], {[name]} ∪ used_dims).
Proof.
  intros Hres Hi Hin Hlast.
  assert (Hlook : input_dim_to_pos st !! name = Some i).
  { change i with (pos initial_state + i)%nat.
    eapply process_input_dims_last; eauto. }
  split; [done|]. intros permutation used_dims Hne Hused.
  unfold permutation_step, is_ellipsis, py_getitem.
  rewrite bool_decide_eq_false_2 by done.
  rewrite bool_decide_eq_true_2 by done. simpl. by rewrite Hlook.
Qed.

Lemma input_position_is_last_occurrence_witness :
  ∃ st, process_input_dims [2; 2]%nat ∅ ["a"; "a"] = Ok st
  ∧ input_dim_to_pos st !! "a" = Some 1%nat
  ∧ ∀ permutation used_dims,
      "a" ≠ "..." → "a" ∉ used_dims →
      permutation_step (input_dim_to_pos st) (permutation, used_dims) "a"
      = Ok (permutation ++ [1%nat], {[ "a" ]} ∪ used_dims).
Proof.
  eexists. split; [vm_compute; reflexivity|].
  apply (input_position_is_last_occurrence [2; 2]%nat ∅ ["a"; "a"] _ 1%nat "a" "a").
  - vm_compute. reflexivity.
  - reflexivity.
  - vm_compute. left.
  - intros dim' Hin. simpl in Hin. by apply elem_of_nil in Hin.
Defined.

(** C2, as stated, fails: with the name [a] at positions 0 and 1 the
    mapping holds 1, not the position 0 of the first occurrence, and the
    permutation entry is 1. *)
Lemma input_position_not_first_occurrence :
  ∃ st, process_input_dims [2; 2]%nat ∅ ["a"; "a"] = Ok st
        ∧ list_find (λ dim, "a" ∈ bound_names dim) ["a"; "a"] = Some (0%nat, "a")
        ∧ input_dim_to_pos st !! "a" = Some 1%nat
        ∧ input_dim_to_pos st !! "a" ≠ Some 0%nat
        ∧ build_permutation (input_dim_to_pos st) ["a"] = Ok [1%nat].
Proof.
  eexists. split; [vm_compute; reflexivity|].
  split; [vm_compute; reflexivity|]. split; [vm_compute; reflexivity|].
  split; [vm_compute; discriminate|]. vm_compute. reflexivity.
Qed.

(** ** Concrete calls of the specification *)

(** C1 (fails on the code). For every array of shape (3,1,5), the call
    [rearrange(x, 'a b c -> a b c', b=4)] does not return an array of shape
    (3,4,5): the resolver accepts the size-1 axis and records the caller's 4
    as the size of [b], the planner then finds the recorded size different
    from 1 and plans no repeat, and the final reshape of 15 elements to
    (3,4,5) raises, re-raised as [EinopsError]. *)
Theorem widen_size1_axis_by_hint_raises {A : Type} (x : ndarray A) :
  shape x = [3; 1; 5]%nat →
  rearrange x "a b c -> a b c" {[ "b" := 4 ]}
  = Raise (EinopsError ReshapeIncompatible).
Proof.
  destruct x as [s d]; simpl; intros ->. vm_compute. reflexivity.
Qed.

Lemma widen_size1_axis_by_hint_raises_witness :
  rearrange (arange [3; 1; 5]%nat) "a b c -> a b c" {[ "b" := 4 ]}
  = Raise (EinopsError ReshapeIncompatible).
Proof. apply widen_size1_axis_by_hint_raises. reflexivity. Defined.

(** C3 (fails on the code). For every array of shape (3,), the call
    [rearrange(x, 'a (b c) -> a b c')] reaches the composite token with the
    shape exhausted; the composite branch reads [shape[pos]] without the
    guard of the plain branch, and the call ends in [IndexError] instead of
    the [EinopsError] "Not enough dimensions in tensor", which the plain
    token of ['a b -> a b'] gets at the same position. *)
Theorem composite_past_rank_raises_IndexError {A : Type} (x : ndarray A) :
  shape x = [3]%nat →
  rearrange x "a (b c) -> a b c" ∅ = Raise IndexError
  ∧ rearrange x "a b -> a b" ∅ = Raise (EinopsError NotEnoughDimensions).
Proof.
  destruct x as [s d]; simpl; intros ->. split; vm_compute; reflexivity.
Qed.

Lemma composite_past_rank_raises_IndexError_witness :
  rearrange (arange [3]%nat) "a (b c) -> a b c" ∅ = Raise IndexError
  ∧ rearrange (arange [3]%nat) "a b -> a b" ∅
    = Raise (EinopsError NotEnoughDimensions).
Proof. apply composite_past_rank_raises_IndexError. reflexivity. Defined.

(** C5. For every array [x] of shape (3,1,5), the call
    [rearrange(x, 'a 1 c -> a b c', b=4)] returns an array of shape (3,4,5)
    whose element at [(i, j, k)] is the element of [x] at [(i, 0, k)], for
    every [j] below 4: each slice along the new axis is the singleton slice
    of [x]. *)
Theorem repeat_new_axis_copies_singleton_slice {A : Type} (x : ndarray A) :
  shape x = [3; 1; 5]%nat → wf x →
  ∃ y, rearrange x "a 1 c -> a b c" {[ "b" := 4 ]} = Ok y ∧
       shape y = [3; 4; 5]%nat ∧
       ∀ i j k, (i < 3)%nat → (j < 4)%nat → (k < 5)%nat →
         is_Some (item y [i; j; k]) ∧ item y [i; j; k] = item x [i; 0%nat; k].
Proof.
  destruct x as [s d]; unfold wf; simpl; intros -> Hd.
  do 15 (destruct d as [|? d]; [discriminate Hd|]).
  destruct d; [|discriminate Hd]. clear Hd.
  eexists. split; [vm_compute; reflexivity|]. split; [reflexivity|].
  intros i j k Hi Hj Hk.
  destruct i as [|[|[|i]]]; [| | |lia];
  (destruct j as [|[|[|[|j]]]]; [| | | |lia]);
  (destruct k as [|[|[|[|[|k]]]]]; [| | | | |lia]); vm_compute; eauto.
Qed.

Lemma repeat_new_axis_copies_singleton_slice_witness :
  ∃ y, rearrange (arange [3; 1; 5]%nat) "a 1 c -> a b c" {[ "b" := 4 ]} = Ok y ∧
       shape y = [3; 4; 5]%nat ∧
       ∀ i j k, (i < 3)%nat → (j < 4)%nat → (k < 5)%nat →
         is_Some (item y [i; j; k])
         ∧ item y [i; j; k] = item (arange [3; 1; 5]%nat) [i; 0%nat; k].
Proof.
  apply repeat_new_axis_copies_singleton_slice; reflexivity.
Defined.

(** C7. For every array [x] of shape (12,10), splitting the first axis with
    ['(h w) c -> h w c'], [h=3], and merging it back with
    ['h w c -> (h w) c'] returns [x]: same shape, same elements. *)
Theorem split_then_merge_is_identity {A : Type} (x : ndarray A) :
  shape x = [12; 10]%nat →
  (y ← rearrange x "(h w) c -> h w c" {[ "h" := 3 ]};
   rearrange y "h w c -> (h w) c" ∅) = Ok x.
Proof.
  destruct x as [s d]; simpl; intros ->. vm_compute. reflexivity.
Qed.

Lemma split_then_merge_is_identity_witness :
  (y ← rearrange (arange [12; 10]%nat) "(h w) c -> h w c" {[ "h" := 3 ]};
   rearrange y "h w c -> (h w) c" ∅) = Ok (arange [12; 10]%nat).
Proof. apply split_then_merge_is_identity. reflexivity. Defined.

(** ** Merging the last two axes behind an ellipsis *)

Section synthetic_run.
Context (shape : list nat) (kw : gmap string Z).

Lemma process_synthetic st i n :
  pos st = i → shape !! i = Some n →
  process_input_dim shape kw st (synthetic i)
  = Ok {| dim_sizes := <[synthetic i := Z.of_nat n]> (dim_sizes st);
          composite_dims := composite_dims st;
          pos := S i;
          input_dim_to_pos := <[synthetic i := i]> (input_dim_to_pos st) |}.
Proof.
  intros Hpos Hn. unfold process_input_dim.
  rewrite synthetic_starts_with_d. unfold py_index. rewrite Hpos, Hn. done.
Qed.

Lemma process_synthetic_run m : ∀ k st,
  pos st = k → (k + m ≤ length shape)%nat →
  ∃ st', for_each (process_input_dim shape kw) st (synthetic <$> seq k m) = Ok st'
    ∧ pos st' = (k + m)%nat
    ∧ (∀ i, (k ≤ i < k + m)%nat →
         dim_sizes st' !! synthetic i = Z.of_nat <$> shape !! i)
    ∧ (∀ name, (∀ i, (k ≤ i < k + m)%nat → name ≠ synthetic i) →
         dim_sizes st' !! name = dim_sizes st !! name).
Proof.
  induction m as [|m IH]; intros k st Hpos Hlen.
  - exists st. simpl. split; [done|]. split; [lia|]. split; [intros; lia|done].
  - destruct (lookup_lt_is_Some_2 shape k) as [n Hn]; [lia|].
    cbn [seq fmap list_fmap for_each].
    rewrite (process_synthetic st k n) by done. cbn [mbind result_bind].
    set (st1 := {| pos := S k |}).
    destruct (IH (S k) st1) as (st' & Hrun & Hpos' & Hbound & Hother);
      [done|lia|].
    exists st'. split; [exact Hrun|]. split; [lia|]. split.
    + intros i Hi. destruct (decide (i = k)) as [->|Hne].
      * rewrite Hother by (intros j Hj Heq%synthetic_inj; lia).
        simpl. rewrite lookup_insert_eq. by rewrite Hn.
      * apply Hbound. lia.
    + intros name Hname. rewrite Hother by (intros j Hj; apply Hname; lia).
      simpl. apply lookup_insert_ne. intros Heq. by apply (Hname k); [lia|].
Qed.

Lemma output_synthetic (ds : gmap string Z) n_ellipsis i (v : Z) final_shape repeat_indices :
  kw !! synthetic i = None → ds !! synthetic i = Some v →
  output_dim_step kw ds n_ellipsis (final_shape, repeat_indices) (synthetic i)
  = Ok (final_shape ++ [v], repeat_indices).
Proof.
  intros Hkw Hds. unfold output_dim_step.
  rewrite synthetic_not_ellipsis, synthetic_no_paren, Hkw.
  unfold py_getitem. by rewrite Hds.
Qed.

Lemma output_synthetic_run (ds : gmap string Z) n_ellipsis m : ∀ k final_shape repeat_indices,
  (∀ i, kw !! synthetic i = None) →
  (k + m ≤ length shape)%nat →
  (∀ i, (k ≤ i < k + m)%nat → ds !! synthetic i = Z.of_nat <$> shape !! i) →
  for_each (output_dim_step kw ds n_ellipsis) (final_shape, repeat_indices)
           (synthetic <$> seq k m)
  = Ok (final_shape ++ (Z.of_nat <$> take m (drop k shape)), repeat_indices).
Proof.
  induction m as [|m IH]; intros k final_shape repeat_indices Hkw Hlen Hds.
  - simpl. by rewrite app_nil_r.
  - destruct (lookup_lt_is_Some_2 shape k) as [n Hn]; [lia|].
    cbn [seq fmap list_fmap for_each].
    rewrite (output_synthetic _ _ _ (Z.of_nat n)); [|done|].
    2:{ rewrite Hds by lia. by rewrite Hn. }
    cbn [mbind result_bind].
    rewrite IH; [|done|lia|intros; apply Hds; lia].
    rewrite (drop_S _ _ _ Hn). cbn [take fmap list_fmap].
    by rewrite <-app_assoc.
Qed.

(** A plain token without a caller-supplied length. *)
Lemma process_plain st name n :
  Str.startswith "_d" name = false → Str.contains "(" name = false →
  kw !! name = None → shape !! pos st = Some n →
  process_input_dim shape kw st name
  = Ok {| dim_sizes := <[name := Z.of_nat n]> (dim_sizes st);
          composite_dims := composite_dims st;
          pos := S (pos st);
          input_dim_to_pos := <[name := pos st]> (input_dim_to_pos st) |}.
Proof.
  intros Hd Hp Hkw Hn. unfold process_input_dim. rewrite Hd, Hp, Hkw.
  unfold py_index. rewrite Hn.
  rewrite (proj2 (Nat.leb_gt _ _)) by (by apply lookup_lt_Some in Hn).
  done.
Qed.

End synthetic_run.

Lemma reshape_to_extents {A : Type} (x : ndarray A) (s : list nat) :
  size x = prod_list s →
  Value.reshape x (Z.of_nat <$> s) = Ok {| shape := s; data := data x |}.
Proof.
  intros Hsize. unfold Value.reshape.
  assert (Hneg : filter (λ d, d < 0) (Z.of_nat <$> s) = []).
  { clear Hsize. induction s as [|n s IH]; [done|]. cbn [fmap list_fmap].
    rewrite filter_cons, decide_False by lia. apply IH. }
  assert (Hpos : foldr Z.mul 1 (filter (λ d, 0 ≤ d) (Z.of_nat <$> s))
                 = Z.of_nat (prod_list s)).
  { clear Hsize Hneg. induction s as [|n s IH]; [done|]. cbn [fmap list_fmap].
    rewrite filter_cons, decide_True by lia. simpl. rewrite IH. lia. }
  rewrite Hneg, Hpos, Hsize, Z.eqb_refl. do 2 f_equal.
  clear. induction s as [|n s IH]; [done|]. cbn [fmap list_fmap] in *.
  by rewrite Nat2Z.id, IH.
Qed.

Section merge.
Context {A : Type}.

Lemma merge_pattern_valid : validate_axes_lengths merge_pattern ∅ = Ok tt.
Proof. vm_compute. reflexivity. Qed.

Lemma merge_pattern_parse :
  parse_pattern merge_pattern = Ok (["..."; "h"; "w"], ["..."; "(h w)"]).
Proof. vm_compute. reflexivity. Qed.

Lemma merge_pattern_check :
  check_pattern ["..."; "h"; "w"] ["..."; "(h w)"] = Ok tt.
Proof. vm_compute. reflexivity. Qed.

Lemma merge_pattern_expand n :
  expand_ellipsis (n + 2) ["..."; "h"; "w"] ["..."; "(h w)"]
  = Ok (synthetic_names n ++ ["h"; "w"], synthetic_names n ++ ["(h w)"], n).
Proof.
  unfold expand_ellipsis.
  change (index_or_minus1 "..." ["..."; "h"; "w"]) with 0.
  change (index_or_minus1 "..." ["..."; "(h w)"]) with 0.
  change (length (filter (λ d, d ≠ "...") ["..."; "h"; "w"])) with 2%nat.
  cbn [Z.leb Z.compare].
  replace (Z.of_nat (n + 2) - Z.of_nat 2) with (Z.of_nat n) by lia.
  rewrite (proj2 (Z.ltb_ge _ _)) by lia. rewrite Nat2Z.id.
  reflexivity.
Qed.

Lemma ellipsis_merge_decomposed (x : ndarray A) lead h w :
  shape x = lead ++ [h; w] →
  rearrange x merge_pattern ∅
  = Ok {| shape := lead ++ [(h * w)%nat]; data := data x |}.
Proof.
  intros Hshape. unfold rearrange.
  rewrite merge_pattern_valid. cbn [lift value_numpy mbind np_mbind result_bind].
  rewrite merge_pattern_parse. cbn [lift value_numpy mbind np_mbind result_bind].
  rewrite merge_pattern_check. cbn [lift value_numpy mbind np_mbind result_bind np_shape].
  rewrite Hshape.
  replace (length (lead ++ [h; w])) with (length lead + 2)%nat
    by (rewrite length_app; simpl; lia).
  rewrite merge_pattern_expand. cbn [lift value_numpy mbind np_mbind result_bind].
  set (n := length lead). set (s := lead ++ [h; w]).
  (* the resolver *)
  destruct (process_synthetic_run s ∅ n 0%nat initial_state)
    as (st1 & Hrun & Hpos1 & Hbound & _); [done|subst s n; rewrite length_app; simpl; lia|].
  simpl in Hpos1.
  assert (Hh : s !! n = Some h).
  { subst s n. rewrite lookup_app_r by lia. by rewrite Nat.sub_diag. }
  assert (Hw : s !! S n = Some w).
  { subst s n. rewrite lookup_app_r by lia.
    by replace (S (length lead) - length lead)%nat with 1%nat by lia. }
  unfold process_input_dims, synthetic_names. rewrite for_each_app, Hrun.
  cbn [mbind result_bind for_each].
  rewrite (process_plain s ∅ st1 "h" h); [|done|done|done|by rewrite Hpos1].
  cbn [mbind result_bind].
  rewrite (process_plain s ∅ _ "w" w); [|try done..].
  2:{ cbn [pos]. rewrite Hpos1. exact Hw. }
  cbn [mbind result_bind pos dim_sizes input_dim_to_pos].
  (* not a pure permutation: the output has a composite token *)
  assert (is_pure_permutation ((synthetic <$> seq 0 n) ++ ["h"; "w"])
            ((synthetic <$> seq 0 n) ++ ["(h w)"])
            (<["w" := S (pos st1)]> (<["h" := pos st1]> (input_dim_to_pos st1)))
          = false) as ->.
  { unfold is_pure_permutation. rewrite !existsb_app.
    change (existsb (Str.contains "(") ["(h w)"]) with true.
    by rewrite !orb_true_r. }
  cbn [mret np_mret value_numpy result_ret mbind result_bind].
  (* the output shape *)
  unfold calc_output_shape. rewrite for_each_app.
  rewrite (output_synthetic_run s ∅ _ n n 0%nat); [|done|subst s n; rewrite length_app; simpl; lia|].
  2:{ intros i Hi. rewrite !lookup_insert_ne by (by apply not_eq_sym, synthetic_ne_plain).
      apply Hbound. lia. }
  cbn [mbind result_bind for_each app].
  unfold output_dim_step.
  change (is_ellipsis "(h w)") with false.
  change (Str.contains "(" "(h w)") with true.
  change (Str.split (Str.strip_parens "(h w)")) with ["h"; "w"].
  cbn [for_each]. unfold py_getitem.
  rewrite (lookup_insert_ne _ "w" "h"), !lookup_insert_eq by done.
  cbn [mbind result_bind].
  (* the executor *)
  unfold execute, apply_repeats.
  cbn [mret np_mret value_numpy result_ret mbind np_mbind result_bind].
  unfold final_reshape. cbn [try_except np_reshape value_numpy].
  replace ((Z.of_nat <$> take n (drop 0 s)) ++ [1 * Z.of_nat h * Z.of_nat w])
    with (Z.of_nat <$> (lead ++ [(h * w)%nat])).
  2:{ rewrite fmap_app. subst s n. rewrite drop_0, take_app_length.
      simpl. do 2 f_equal. lia. }
  rewrite reshape_to_extents; [done|].
  unfold size. rewrite Hshape, !prod_list_app. simpl. lia.
Qed.

(** C6. For every array [x] of rank at least 2, the call
    [rearrange(x, '... h w -> ... (h w)')] returns an array whose shape is
    the leading [rank - 2] extents of [x], in order, followed by the product
    of its last two extents; the elements keep their row-major order. *)
Theorem ellipsis_merge_last_two_axes (x : ndarray A) :
  (2 ≤ ndim x)%nat →
  rearrange x merge_pattern ∅
  = Ok {| shape := take (ndim x - 2) (shape x)
                   ++ [prod_list (drop (ndim x - 2) (shape x))];
          data := data x |}.
Proof.
  unfold ndim. intros Hrank.
  destruct (drop (length (shape x) - 2) (shape x)) as [|h [|w [|? ?]]] eqn:Hlast.
  1,2,4: apply (f_equal length) in Hlast; rewrite length_drop in Hlast;
         simpl in Hlast; lia.
  rewrite (ellipsis_merge_decomposed x (take (length (shape x) - 2) (shape x)) h w).
  - simpl. do 4 f_equal. lia.
  - by rewrite <-Hlast, take_drop.
Qed.
End merge.

Lemma ellipsis_merge_last_two_axes_witness :
  rearrange (arange [2; 3; 4; 5]%nat) merge_pattern ∅
  = Ok {| shape := [2; 3; 20]%nat; data := data (arange [2; 3; 4; 5]%nat) |}.
Proof.
  apply (ellipsis_merge_last_two_axes (arange [2; 3; 4; 5]%nat)).
  unfold ndim; simpl; lia.
Defined.

(** ** The executor against its specification *)

Section executor.
Context {A : Type}.
Implicit Types x y : ndarray A.

Lemma reshape_ext x y newshape :
  size x = size y → data x = data y → Value.reshape x newshape = Value.reshape y newshape.
Proof. intros Hs Hd. unfold Value.reshape. by rewrite Hs, Hd. Qed.

Lemma final_reshape_ext x y final_shape :
  size x = size y → data x = data y →
  final_reshape x final_shape = final_reshape y final_shape.
Proof.
  intros Hs Hd. unfold final_reshape; simpl. by rewrite (reshape_ext x y).
Qed.

Lemma prod_list_insert (l : list nat) i n m :
  l !! i = Some n → prod_list (<[i := m]> l) = (prod_list (take i l) * m * prod_list (drop (S i) l))%nat.
Proof.
  intros Hi. rewrite <-(take_drop_middle l i n) at 1 by done.
  rewrite insert_app_r_alt by (rewrite length_take; lia).
  rewrite length_take_le by (apply lookup_lt_Some in Hi; lia).
  rewrite Nat.sub_diag; simpl. rewrite prod_list_app; simpl. lia.
Qed.

Lemma expand_dims_in_range x idx :
  (idx ≤ ndim x)%nat → (ndim x < NPY_MAXDIMS)%nat →
  Value.expand_dims x idx = Ok (expanded x idx).
Proof.
  intros H Hmax. unfold Value.expand_dims.
  by rewrite (proj2 (Nat.leb_le _ _) H), (proj2 (Nat.leb_gt _ _) Hmax).
Qed.

Lemma expand_dims_at_limit x idx :
  (idx ≤ ndim x)%nat → (NPY_MAXDIMS ≤ ndim x)%nat →
  Value.expand_dims x idx = Raise ValueError.
Proof.
  intros H Hmax. unfold Value.expand_dims.
  by rewrite (proj2 (Nat.leb_le _ _) H), (proj2 (Nat.leb_le _ _) Hmax).
Qed.

Lemma expand_dims_out_of_range x idx :
  (ndim x < idx)%nat → Value.expand_dims x idx = Raise AxisError.
Proof.
  intros H. unfold Value.expand_dims. by rewrite (proj2 (Nat.leb_gt _ _) H).
Qed.

Lemma take_inserted_axis (s : list nat) idx :
  (idx ≤ length s)%nat → take idx (take idx s ++ 1%nat :: drop idx s) = take idx s.
Proof.
  intros H. rewrite take_app_le by (rewrite length_take; lia).
  rewrite take_take. f_equal. lia.
Qed.

Lemma drop_inserted_axis (s : list nat) idx :
  (idx ≤ length s)%nat →
  drop idx (take idx s ++ 1%nat :: drop idx s) = 1%nat :: drop idx s.
Proof.
  intros H. rewrite drop_app_ge by (rewrite length_take; lia).
  rewrite length_take_le by lia. by rewrite Nat.sub_diag.
Qed.

Lemma expanded_ndim x idx : ndim (expanded x idx) = S (ndim x).
Proof.
  unfold ndim, expanded; simpl. rewrite length_app; simpl.
  rewrite length_take, length_drop. lia.
Qed.

Lemma expanded_size x idx : size (expanded x idx) = size x.
Proof.
  unfold size, expanded; simpl. rewrite prod_list_app; simpl.
  rewrite <-(take_drop idx (shape x)) at 3. rewrite prod_list_app. lia.
Qed.

(** Repeating the axis just inserted at [idx]: what it depends on. *)
Lemma repeat_expanded x idx sz :
  (idx ≤ ndim x)%nat →
  Value.repeat (expanded x idx) sz idx
  = if sz <? 0 then Raise ValueError
    else Ok {| shape := take idx (shape x) ++ Z.to_nat sz :: drop idx (shape x);
               data := Value.repeat_data (prod_list (drop idx (shape x)))
                         (Z.to_nat sz) (size x) (data x) |}.
Proof.
  intros H. unfold Value.repeat.
  assert (Hlen : length (take idx (shape x)) = idx)
    by (unfold ndim in H; rewrite length_take; lia).
  assert (shape (expanded x idx) !! idx = Some 1%nat) as ->.
  { unfold expanded; simpl. rewrite lookup_app_r by lia. by rewrite Hlen, Nat.sub_diag. }
  destruct (sz <? 0); [done|]. f_equal. f_equal.
  - unfold expanded; simpl. rewrite insert_app_r_alt by lia.
    rewrite Hlen, Nat.sub_diag. simpl. do 2 f_equal. lia.
  - rewrite expanded_size. f_equal. unfold expanded; simpl.
    rewrite drop_app_ge by lia. rewrite Hlen.
    replace (S idx - idx)%nat with 1%nat by lia. done.
Qed.

(** C8 (amended). For every array whose number of axes is not one below
    NumPy's limit and every single repeat instruction, the executor (repeat
    stage, then the reshape to [final_shape]) has the outcome of the
    executor of the specification, which inserts one axis of size 1 at the
    target index and expands it: the same array, or the same exception. *)
Theorem single_repeat_matches_spec x idx sz final_shape :
  ndim x ≠ (NPY_MAXDIMS - 1)%nat →
  execute x [(idx, sz)] final_shape = spec_execute x [(idx, sz)] final_shape.
Proof.
  intros Hrank. unfold execute, spec_execute, apply_repeats.
  cbn [sorted_desc foldr insert_desc for_each_array mbind np_mbind value_numpy
       result_bind np_expand_dims np_repeat mret np_mret result_ret].
  destruct (decide (idx ≤ ndim x)%nat) as [Hidx|Hidx].
  - destruct (decide (NPY_MAXDIMS ≤ ndim x)%nat) as [Hmax|Hmax].
    { (* no axis can be inserted: both fail at the first insertion *)
      rewrite (expand_dims_at_limit x idx) by done. done. }
    rewrite (expand_dims_in_range x idx) by (done || lia).
    cbn [mbind result_bind result_ret].
    rewrite (expand_dims_in_range (expanded x idx) idx)
      by (rewrite expanded_ndim; lia).
    cbn [mbind result_bind result_ret].
    rewrite !repeat_expanded by (rewrite ?expanded_ndim; lia).
    destruct (sz <? 0); [done|]. cbn [mbind result_bind result_ret].
    unfold ndim in Hidx.
    apply final_reshape_ext; cbn [shape data].
    + unfold size, expanded; cbn [shape].
      rewrite take_inserted_axis, drop_inserted_axis by done.
      rewrite !prod_list_app. unfold prod_list; cbn [foldr]. lia.
    + rewrite expanded_size. unfold expanded at 1 2; cbn [shape data].
      rewrite drop_inserted_axis by done. f_equal.
      unfold prod_list; cbn [foldr]. lia.
  - rewrite (expand_dims_out_of_range x idx) by lia. done.
Qed.

(** One axis below the limit the two executors part: the code inserts two
    axes for the instruction, the second of which NumPy refuses, and the
    [ValueError] leaves [rearrange] as it is; one inserted axis is within
    the limit. *)
Lemma single_repeat_at_rank_limit x idx sz final_shape :
  ndim x = (NPY_MAXDIMS - 1)%nat → (idx ≤ ndim x)%nat → 0 ≤ sz →
  execute x [(idx, sz)] final_shape = Raise ValueError
  ∧ spec_execute x [(idx, sz)] final_shape ≠ Raise ValueError.
Proof.
  intros Hrank Hidx Hsz. unfold execute, spec_execute, apply_repeats.
  cbn [sorted_desc foldr insert_desc for_each_array mbind np_mbind value_numpy
       result_bind np_expand_dims np_repeat mret np_mret result_ret].
  assert (Hmax : (ndim x < NPY_MAXDIMS)%nat) by (rewrite Hrank; cbv; lia).
  rewrite (expand_dims_in_range x idx) by done.
  cbn [mbind result_bind result_ret]. split.
  - rewrite (expand_dims_at_limit (expanded x idx) idx); [done| |].
    + rewrite expanded_ndim; lia.
    + rewrite expanded_ndim, Hrank. cbv; lia.
  - rewrite repeat_expanded by done.
    rewrite (proj2 (Z.ltb_ge _ _) Hsz). cbn [mbind result_bind result_ret].
    unfold final_reshape. cbn [try_except np_reshape value_numpy lift].
    destruct (Value.reshape _ final_shape) as [y|[]]; discriminate.
Qed.

End executor.

Lemma single_repeat_matches_spec_witness :
  execute (arange [2; 3]%nat) [(1%nat, 2)] [2; 2; 3]
  = spec_execute (arange [2; 3]%nat) [(1%nat, 2)] [2; 2; 3].
Proof. apply single_repeat_matches_spec. vm_compute. lia. Defined.

(** C8, as stated, fails for two instructions: in
    [rearrange(arange(6).reshape(2, 3), 'a b -> n a m b', n=2, m=2)] the
    instructions are (0, 2) and (2, 2); the executor first inserts an axis
    for every instruction and then, for each, a second one that it expands,
    and returns every row twice, where inserting and expanding one axis per
    instruction returns every element twice. *)
Lemma repeat_stage_differs_from_spec :
  execute (arange [2; 3]%nat) [(0%nat, 2); (2%nat, 2)] [2; 2; 2; 3]
  ≠ spec_execute (arange [2; 3]%nat) [(0%nat, 2); (2%nat, 2)] [2; 2; 2; 3]
  ∧ rearrange (arange [2; 3]%nat) "a b -> n a m b" {[ "n" := 2; "m" := 2 ]}
    = execute (arange [2; 3]%nat) [(0%nat, 2); (2%nat, 2)] [2; 2; 2; 3]
  ∧ execute (arange [2; 3]%nat) [(0%nat, 2); (2%nat, 2)] [2; 2; 2; 3]
    = Ok {| shape := [2; 2; 2; 3]%nat;
            data := [0; 1; 2; 0; 1; 2; 3; 4; 5; 3; 4; 5;
                     0; 1; 2; 0; 1; 2; 3; 4; 5; 3; 4; 5] |}
  ∧ spec_execute (arange [2; 3]%nat) [(0%nat, 2); (2%nat, 2)] [2; 2; 2; 3]
    = Ok {| shape := [2; 2; 2; 3]%nat;
            data := [0; 0; 1; 1; 2; 2; 3; 3; 4; 4; 5; 5;
                     0; 0; 1; 1; 2; 2; 3; 3; 4; 4; 5; 5] |}.
Proof.
  split; [vm_compute; discriminate|].
  split; [vm_compute; reflexivity|]. split; vm_compute; reflexivity.
Qed.

(** ** The caller's array is left as it was *)

Section frame.
Context {A : Type} `{!Store.ReshapeRule}.
Implicit Types (σ : Store.store A).

Lemma extends_refl σ : Store.extends σ σ.
Proof. split; done. Qed.

Lemma extends_trans σ1 σ2 σ3 :
  Store.extends σ1 σ2 → Store.extends σ2 σ3 → Store.extends σ1 σ3.
Proof. intros [? ?] [? ?]. split; by etrans. Qed.

(** What could be read before can be read after, and reads the same. *)
Lemma extends_deref σ σ' r x :
  Store.extends σ σ' → Store.deref σ r = Some x → Store.deref σ' r = Some x.
Proof.
  intros [Hobj Hbuf]. unfold Store.deref.
  destruct (Store.objects σ !! r) as [o|] eqn:Ho; [|done]. cbn.
  destruct (Store.buffers σ !! Store.buffer o) as [b|] eqn:Hb; [|done]. cbn.
  intros [= <-].
  rewrite (lookup_weaken _ _ _ _ Ho Hobj). cbn.
  by rewrite (lookup_weaken _ _ _ _ Hb Hbuf).
Qed.

Lemma preserves_ret {X : Type} (x : X) : preserves A (mret x).
Proof. intros σ. apply extends_refl. Qed.

Lemma preserves_lift {X : Type} (m : result X) : preserves A (Store.lift m).
Proof. intros σ. apply extends_refl. Qed.

Lemma preserves_bind {X Y : Type} (m : Store.M (A:=A) X) (f : X → Store.M (A:=A) Y) :
  preserves A m → (∀ x, preserves A (f x)) → preserves A (m ≫= f).
Proof.
  intros Hm Hf σ. unfold mbind, Store.store_bind.
  specialize (Hm σ). destruct (m σ) as [[x|e] σ']; cbn [snd] in *; [|done].
  eapply extends_trans; [exact Hm|apply Hf].
Qed.

Lemma preserves_try_except {X : Type} (m : Store.M (A:=A) X)
    (handler : exn → Store.M (A:=A) X) :
  preserves A m → (∀ e, preserves A (handler e)) →
  preserves A (Store.try_except m handler).
Proof.
  intros Hm Hh σ. unfold Store.try_except.
  specialize (Hm σ). destruct (m σ) as [[x|e] σ']; cbn [snd] in *; [done|].
  eapply extends_trans; [exact Hm|apply Hh].
Qed.

Lemma preserves_get r : preserves A (Store.get r).
Proof. intros σ. unfold Store.get. destruct (_ !! r); apply extends_refl. Qed.

Lemma preserves_load o : preserves A (Store.load o).
Proof. intros σ. unfold Store.load. destruct (_ !! _); apply extends_refl. Qed.

(** A new object takes a reference that is not in use, a new buffer a key
    that is not in use. *)
Lemma preserves_new_object o : preserves A (Store.new_object o).
Proof.
  intros σ. unfold Store.new_object. split; cbn; [|done].
  apply insert_subseteq, not_elem_of_dom, is_fresh.
Qed.

Lemma preserves_new_buffer b : preserves A (Store.new_buffer b).
Proof.
  intros σ. unfold Store.new_buffer. split; cbn; [done|].
  apply insert_subseteq, not_elem_of_dom, is_fresh.
Qed.

Lemma preserves_as_view f r : preserves A (Store.as_view f r).
Proof.
  unfold Store.as_view. apply preserves_bind; [apply preserves_get|intros o].
  apply preserves_bind; [apply preserves_lift|intros v]. apply preserves_new_object.
Qed.

Lemma preserves_as_copy f r : preserves A (Store.as_copy f r).
Proof.
  unfold Store.as_copy. apply preserves_bind; [apply preserves_get|intros o].
  apply preserves_bind; [apply preserves_load|intros b].
  apply preserves_bind; [apply preserves_lift|intros y].
  unfold Store.new_array.
  apply preserves_bind; [apply preserves_new_buffer|intros k].
  apply preserves_new_object.
Qed.

Lemma preserves_reshape r newshape : preserves A (Store.np_reshape r newshape).
Proof.
  unfold Store.np_reshape. apply preserves_bind; [apply preserves_get|intros o].
  destruct (Store.reshape_copies _ _); [apply preserves_as_copy|apply preserves_as_view].
Qed.

Lemma preserves_for_each_array {X : Type}
    (body : positive → X → Store.M (A:=A) positive) l :
  (∀ r x, preserves A (body r x)) → ∀ r, preserves A (for_each_array body r l).
Proof.
  intros Hbody. induction l as [|x l IH]; intros r; cbn [for_each_array].
  - apply preserves_ret.
  - apply preserves_bind; [apply Hbody|apply IH].
Qed.

(** C9. A call of [rearrange] on the array object [tensor], in any store and
    with any pattern and axis lengths: every array that could be read
    before the call, the caller's array among them, reads the same shape
    and the same elements in the store that the call leaves behind,
    whether it returned a result or raised. The objects that the call
    creates are new ones, views of the caller's buffer included, and no
    buffer that existed is written. *)
Theorem rearrange_leaves_input_unchanged
    (σ : Store.store A) (tensor : positive) (pattern : string)
    (axes_lengths : gmap string Z) (r : positive) (x : ndarray A) :
  Store.deref σ r = Some x →
  Store.deref (rearrange tensor pattern axes_lengths σ).2 r = Some x.
Proof.
  apply extends_deref. revert σ.
  change (preserves A (rearrange tensor pattern axes_lengths)).
  unfold rearrange.
  (* initial validation, parsing and pattern validation *)
  apply preserves_bind; [apply preserves_lift|intros _].
  apply preserves_bind; [apply preserves_lift|intros [input_dims output_dims]].
  apply preserves_bind; [apply preserves_lift|intros _].
  (* [tensor.shape], ellipsis expansion and the resolver *)
  apply preserves_bind;
    [apply preserves_bind; [apply preserves_get|intros o; apply preserves_ret]|].
  intros shape.
  apply preserves_bind; [apply preserves_lift|].
  intros [[full_input_dims full_output_dims] n_ellipsis].
  apply preserves_bind; [apply preserves_lift|intros st].
  (* the transposition is a view of [tensor], or [tensor] itself *)
  apply preserves_bind.
  { destruct (is_pure_permutation _ _ _); [|apply preserves_ret].
    apply preserves_bind; [apply preserves_lift|intros permutation].
    destruct (1 <? length permutation)%nat;
      [apply preserves_as_view|apply preserves_ret]. }
  intros current.
  apply preserves_bind; [apply preserves_lift|].
  intros [final_shape repeat_indices].
  (* the repeat stage: views from [np.expand_dims], copies from [np.repeat] *)
  unfold execute. apply preserves_bind.
  { unfold apply_repeats. destruct repeat_indices as [|i l]; [apply preserves_ret|].
    apply preserves_bind.
    - apply preserves_for_each_array. intros r' [idx size]. apply preserves_as_view.
    - intros r'. apply preserves_for_each_array. intros r'' [idx size].
      apply preserves_bind; [apply preserves_as_view|intros e].
      apply preserves_as_copy. }
  (* the final reshape, a view or a copy, and its handler *)
  intros current'. unfold final_reshape.
  apply preserves_try_except; [apply preserves_reshape|].
  intros []; apply preserves_lift.
Qed.
End frame.

Lemma rearrange_leaves_input_unchanged_witness :
  Store.deref (rearrange (NumPy0 := Store.store_numpy (H := never_copies))
                 1%positive "h w -> w h" ∅ one_matrix).2 1%positive
  = Some (arange [2; 3]%nat).
Proof.
  apply (rearrange_leaves_input_unchanged (H := never_copies)). reflexivity.
Defined.

(** ** The two instances of the array interface agree *)

Lemma omap_lookup_seq_app {X : Type} (d : list X) : ∀ pre,
  omap (λ i, (pre ++ d) !! i) (seq (length pre) (length d)) = d.
Proof.
  induction d as [|a d IH]; intros pre; [done|].
  cbn [length seq omap list_omap]. rewrite list_lookup_middle by done.
  f_equal. specialize (IH (pre ++ [a])).
  rewrite length_app, <-app_assoc in IH. cbn in IH.
  by rewrite Nat.add_1_r in IH.
Qed.

Lemma omap_lookup_seq {X : Type} (d : list X) :
  omap (λ i, d !! i) (seq 0 (length d)) = d.
Proof. apply (omap_lookup_seq_app d []). Qed.

(** Reading a buffer at the offsets of an object. *)
Lemma omap_omap {X Y W : Type} (f : X → option Y) (g : Y → option W) (l : list X) :
  omap g (omap f l) = omap (λ x, f x ≫= g) l.
Proof.
  induction l as [|x l IH]; [done|]. cbn [omap list_omap].
  destruct (f x) as [y|]; cbn; [|done]. destruct (g y); by rewrite IH.
Qed.

Lemma lookup_omap_lookup {X : Type} (b : list X) (idx : list nat) k :
  Forall (λ i, (i < length b)%nat) idx →
  omap (λ i, b !! i) idx !! k = idx !! k ≫= (λ i, b !! i).
Proof.
  intros Hidx. revert k. induction Hidx as [|i idx Hi _ IH]; intros k; [done|].
  destruct (lookup_lt_is_Some_2 b i Hi) as [v Hv].
  cbn [omap list_omap]. rewrite Hv. cbn.
  destruct k as [|k]; cbn; [by rewrite Hv|apply IH].
Qed.

Lemma Forall_omap_lookup {X : Type} (P : X → Prop) (d : list X) (g : nat → nat) l :
  Forall P d → Forall P (omap (λ i, d !! g i) l).
Proof.
  intros Hd. induction l as [|i l IH]; [constructor|]. cbn [omap list_omap].
  destruct (d !! g i) as [a|] eqn:Ha; [|exact IH].
  constructor; [|exact IH]. exact (Forall_lookup_1 _ _ _ _ Hd Ha).
Qed.

Section naturality.
Context {A : Type}.
Implicit Types (b : list A) (v : ndarray nat).

(** The operations that return views rearrange offsets as they rearrange
    elements. *)
Lemma transpose_natural b v axes :
  Forall (λ i, (i < length b)%nat) (data v) →
  Value.transpose (Store.value_of b v) axes
  = Store.value_of b <$> Value.transpose v axes.
Proof.
  intros Hv. unfold Value.transpose, ndim, size. cbn [Store.value_of shape data].
  destruct (negb _); [done|]. destruct (existsb _ _); [done|].
  destruct (negb _); [done|]. cbn [fmap result_fmap]. unfold Store.value_of.
  cbn [shape data]. f_equal. f_equal. rewrite omap_omap.
  induction (seq 0 (prod_list (shape v))) as [|flat l IH]; [done|].
  cbn [omap list_omap]. rewrite lookup_omap_lookup by done. by rewrite IH.
Qed.

Lemma expand_dims_natural b v axis :
  Value.expand_dims (Store.value_of b v) axis
  = Store.value_of b <$> Value.expand_dims v axis.
Proof.
  unfold Value.expand_dims, ndim. cbn [Store.value_of shape data].
  destruct (_ <=? _)%nat; [|done]. by destruct (_ <=? _)%nat.
Qed.

Lemma reshape_natural b v newshape :
  Value.reshape (Store.value_of b v) newshape
  = Store.value_of b <$> Value.reshape v newshape.
Proof.
  unfold Value.reshape, size. cbn [Store.value_of shape data].
  destruct (filter _ newshape) as [|d [|d' l]]; [| |done].
  - by destruct (_ =? _).
  - by destruct (_ || _).
Qed.

Lemma transpose_offsets (P : nat → Prop) v v' axes :
  Value.transpose v axes = Ok v' → Forall P (data v) → Forall P (data v').
Proof.
  unfold Value.transpose. destruct (negb _); [done|].
  destruct (existsb _ _); [done|]. destruct (negb _); [done|].
  intros [= <-] Hv. cbn [data]. by apply Forall_omap_lookup.
Qed.

Lemma expand_dims_offsets (P : nat → Prop) v v' axis :
  Value.expand_dims v axis = Ok v' → Forall P (data v) → Forall P (data v').
Proof.
  unfold Value.expand_dims. destruct (_ <=? _)%nat; [|done].
  destruct (_ <=? _)%nat; [done|]. by intros [= <-].
Qed.

Lemma reshape_offsets (P : nat → Prop) v v' newshape :
  Value.reshape v newshape = Ok v' → Forall P (data v) → Forall P (data v').
Proof.
  unfold Value.reshape. destruct (filter _ newshape) as [|d [|d' l]]; [| |done].
  - destruct (_ =? _); [|done]. by intros [= <-].
  - destruct (_ || _); [done|]. by intros [= <-].
Qed.
End naturality.

Section agreement.
Context {A : Type} `{!Store.ReshapeRule}.
Implicit Types (σ : Store.store A) (x y : ndarray A).

Lemma deref_Some σ r x :
  Store.deref σ r = Some x ↔
  ∃ o b, Store.objects σ !! r = Some o ∧ Store.buffers σ !! Store.buffer o = Some b
         ∧ x = Store.value_of b (Store.view o).
Proof.
  unfold Store.deref. split.
  - destruct (Store.objects σ !! r) as [o|] eqn:Ho; [|done]. cbn.
    destruct (Store.buffers σ !! Store.buffer o) as [b|] eqn:Hb; [|done]. cbn.
    intros [= <-]. by exists o, b.
  - intros (o & b & -> & Hb & ->). cbn. by rewrite Hb.
Qed.

Lemma agrees_ret σ r x :
  Store.valid σ → Store.deref σ r = Some x → agrees (mret r) (mret x) σ.
Proof.
  intros Hσ Hr. exists σ. split; [apply extends_refl|]. split; [done|]. by exists r.
Qed.

Lemma agrees_lift_bind {X : Type} (m : result X)
    (ks : X → Store.M positive) (kv : X → result (ndarray A)) σ :
  Store.valid σ →
  (∀ v, m = Ok v → agrees (ks v) (kv v) σ) →
  agrees (Store.lift m ≫= ks) (m ≫= kv) σ.
Proof.
  intros Hσ Hk. destruct m as [v|e].
  - apply Hk. done.
  - exists σ. split; [apply extends_refl|]. split; done.
Qed.

Lemma agrees_bind (ms : Store.M positive) (mv : result (ndarray A))
    (ks : positive → Store.M positive) (kv : ndarray A → result (ndarray A)) σ :
  agrees ms mv σ →
  (∀ σ' r y, Store.valid σ' → Store.deref σ' r = Some y → agrees (ks r) (kv y) σ') →
  agrees (ms ≫= ks) (mv ≫= kv) σ.
Proof.
  intros (σ1 & Hsub & Hσ1 & Hm) Hk. destruct mv as [y|e].
  - destruct Hm as (r & Hrun & Hr).
    destruct (Hk σ1 r y Hσ1 Hr) as (σ2 & Hsub2 & Hσ2 & Hk').
    exists σ2. split; [by eapply extends_trans|]. split; [done|].
    unfold mbind, Store.store_bind. rewrite Hrun. exact Hk'.
  - exists σ1. split; [done|]. split; [done|].
    unfold mbind, Store.store_bind. by rewrite Hm.
Qed.

(** A view shows what the operation makes of the array. *)
Lemma agrees_as_view (fi : ndarray nat → result (ndarray nat))
    (fv : ndarray A → result (ndarray A)) σ r x :
  (∀ b v, Forall (λ i, (i < length b)%nat) (data v) →
          fv (Store.value_of b v) = Store.value_of b <$> fi v) →
  (∀ (P : nat → Prop) v v', fi v = Ok v' → Forall P (data v) → Forall P (data v')) →
  Store.valid σ → Store.deref σ r = Some x →
  agrees (Store.as_view fi r) (fv x) σ.
Proof.
  intros Hnat Hoff Hσ (o & b & Ho & Hb & ->)%deref_Some.
  destruct (Hσ r o Ho) as (b' & Hb' & Hidx). rewrite Hb in Hb'. injection Hb' as <-.
  rewrite (Hnat b (Store.view o) Hidx).
  unfold agrees, Store.as_view, mbind, Store.store_bind, Store.get, Store.lift.
  rewrite Ho. destruct (fi (Store.view o)) as [v'|e] eqn:Hfi; cbn [fmap result_fmap].
  - unfold Store.new_object.
    set (r' := fresh (dom (Store.objects σ))).
    assert (Hfresh : Store.objects σ !! r' = None) by apply not_elem_of_dom, is_fresh.
    eexists. split; [|split; [|eexists; split; [reflexivity|]]].
    + split; cbn; [by apply insert_subseteq|done].
    + intros r0 o0. cbn. rewrite lookup_insert. case_decide as Hr0.
      * intros [= <-]. cbn. exists b. split; [done|]. by eapply Hoff.
      * apply Hσ.
    + unfold Store.deref. cbn. rewrite lookup_insert_eq. cbn. by rewrite Hb.
  - exists σ. split; [apply extends_refl|]. split; done.
Qed.

(** A copy shows what the operation makes of the array, from a new buffer. *)
Lemma agrees_as_copy (fv : ndarray A → result (ndarray A)) σ r x :
  Store.valid σ → Store.deref σ r = Some x →
  agrees (Store.as_copy fv r) (fv x) σ.
Proof.
  intros Hσ (o & b & Ho & Hb & ->)%deref_Some.
  unfold agrees, Store.as_copy, mbind, Store.store_bind, Store.get, Store.load,
    Store.lift.
  rewrite Ho, Hb. destruct (fv _) as [y|e].
  - unfold Store.new_array, mbind, Store.store_bind, Store.new_buffer,
      Store.new_object. cbn [Store.objects Store.buffers].
    set (k := fresh (dom (Store.buffers σ))).
    set (r' := fresh (dom (Store.objects σ))).
    assert (Hk : Store.buffers σ !! k = None) by apply not_elem_of_dom, is_fresh.
    assert (Hr' : Store.objects σ !! r' = None) by apply not_elem_of_dom, is_fresh.
    eexists. split; [|split; [|eexists; split; [reflexivity|]]].
    + split; cbn; by apply insert_subseteq.
    + intros r0 o0. cbn. rewrite lookup_insert. case_decide as Hr0.
      * intros [= <-]. cbn. exists (data y). rewrite lookup_insert_eq.
        split; [done|]. apply Forall_forall. intros i Hi%elem_of_seq. lia.
      * intros Ho0. destruct (Hσ r0 o0 Ho0) as (b0 & Hb0 & Hidx).
        exists b0. split; [|done]. rewrite lookup_insert_ne; [done|].
        intros Heq. rewrite <-Heq in Hb0. by rewrite Hk in Hb0.
    + unfold Store.deref. cbn. rewrite lookup_insert_eq. cbn.
      rewrite lookup_insert_eq. cbn. unfold Store.value_of. cbn [shape data].
      rewrite omap_lookup_seq. by destruct y.
  - exists σ. split; [apply extends_refl|]. split; done.
Qed.

Lemma agrees_expand_dims σ r x idx :
  Store.valid σ → Store.deref σ r = Some x →
  agrees (np_expand_dims r idx) (np_expand_dims x idx) σ.
Proof.
  apply (agrees_as_view (λ v, Value.expand_dims v idx) (λ x, Value.expand_dims x idx)).
  - intros b v _. apply expand_dims_natural.
  - intros P v v'. apply expand_dims_offsets.
Qed.

Lemma agrees_repeat σ r x repeats axis :
  Store.valid σ → Store.deref σ r = Some x →
  agrees (np_repeat r repeats axis) (np_repeat x repeats axis) σ.
Proof. apply (agrees_as_copy (λ x, Value.repeat x repeats axis)). Qed.

Lemma agrees_transpose σ r x axes :
  Store.valid σ → Store.deref σ r = Some x →
  agrees (np_transpose r axes) (np_transpose x axes) σ.
Proof.
  apply (agrees_as_view (λ v, Value.transpose v axes) (λ x, Value.transpose x axes)).
  - intros b v. apply transpose_natural.
  - intros P v v'. apply transpose_offsets.
Qed.

(** Whether [reshape] copies or not, the new object shows the reshaped
    array. *)
Lemma agrees_reshape σ r x newshape :
  Store.valid σ → Store.deref σ r = Some x →
  agrees (Store.np_reshape r newshape) (Value.reshape x newshape) σ.
Proof.
  intros Hσ Hr. pose proof Hr as (o & b & Ho & _)%deref_Some.
  assert (Hrun : ∀ m : Store.object → Store.M positive,
            (o' ← Store.get r; m o') σ = m o σ).
  { intros m. unfold mbind, Store.store_bind, Store.get. by rewrite Ho. }
  unfold Store.np_reshape, agrees. rewrite Hrun.
  destruct (Store.reshape_copies _ _).
  - by apply (agrees_as_copy (λ x, Value.reshape x newshape)).
  - apply (agrees_as_view (λ v, Value.reshape v newshape)
                          (λ x, Value.reshape x newshape)); [| |done|done].
    + intros b' v _. apply reshape_natural.
    + intros P v v'. apply reshape_offsets.
Qed.

Lemma agrees_for_each_array {X : Type}
    (bs : positive → X → Store.M positive) (bv : ndarray A → X → result (ndarray A)) l :
  (∀ σ r x v, Store.valid σ → Store.deref σ r = Some x → agrees (bs r v) (bv x v) σ) →
  ∀ σ r x, Store.valid σ → Store.deref σ r = Some x →
  agrees (for_each_array bs r l) (for_each_array bv x l) σ.
Proof.
  intros Hbody. induction l as [|v l IH]; intros σ r x Hσ Hr; cbn [for_each_array].
  - by apply agrees_ret.
  - apply agrees_bind; [by apply Hbody|]. intros σ' r' y Hσ' Hr'. by apply IH.
Qed.

Lemma agrees_execute σ r x repeat_indices final_shape :
  Store.valid σ → Store.deref σ r = Some x →
  agrees (execute r repeat_indices final_shape) (execute x repeat_indices final_shape) σ.
Proof.
  intros Hσ Hr. unfold execute. apply agrees_bind.
  - unfold apply_repeats. destruct repeat_indices as [|i l]; [by apply agrees_ret|].
    apply agrees_bind.
    + apply agrees_for_each_array; [|done|done].
      intros σ1 r1 x1 [idx sz] Hσ1 H1. by apply agrees_expand_dims.
    + intros σ1 r1 x1 Hσ1 H1. apply agrees_for_each_array; [|done|done].
      intros σ2 r2 x2 [idx sz] Hσ2 H2.
      apply agrees_bind; [by apply agrees_expand_dims|].
      intros σ3 r3 x3 Hσ3 H3. by apply agrees_repeat.
  - intros σ1 r1 x1 Hσ1 H1. unfold final_reshape.
    destruct (agrees_reshape σ1 r1 x1 final_shape Hσ1 H1) as (σ2 & Hsub & Hσ2 & Hrun).
    exists σ2. split; [done|]. split; [done|].
    cbn [try_except np_reshape Store.store_numpy value_numpy].
    unfold Store.try_except.
    destruct (Value.reshape x1 final_shape) as [y|e].
    + destruct Hrun as (r2 & -> & Hr2). by exists r2.
    + rewrite Hrun. by destruct e.
Qed.

(** The store-level [rearrange] computes what the value-level one does. *)
Lemma store_rearrange_agrees_with_value σ tensor x pattern axes_lengths :
  Store.valid σ → Store.deref σ tensor = Some x →
  agrees (rearrange tensor pattern axes_lengths) (rearrange x pattern axes_lengths) σ.
Proof.
  intros Hσ Hx. unfold rearrange.
  apply agrees_lift_bind; [done|]; intros [] _.
  apply agrees_lift_bind; [done|]; intros [input_dims output_dims] _.
  apply agrees_lift_bind; [done|]; intros [] _.
  assert (Hshape : ∀ (ks : list nat → Store.M positive) kv,
            agrees (ks (shape x)) (kv (shape x)) σ →
            agrees (np_shape tensor ≫= ks) (np_shape x ≫= kv) σ).
  { intros ks kv (σ' & Hsub & Hσ' & Hk). exists σ'. split; [done|]. split; [done|].
    pose proof Hx as (o & b & Ho & _ & ->)%deref_Some.
    cbn [np_shape Store.store_numpy value_numpy mbind np_mbind
         Store.store_bind result_bind].
    unfold Store.np_shape, Store.get, mbind, Store.store_bind, mret,
      Store.store_ret. by rewrite Ho. }
  apply Hshape.
  apply agrees_lift_bind; [done|];
    intros [[full_input_dims full_output_dims] n_ellipsis] _.
  apply agrees_lift_bind; [done|]; intros st _.
  apply agrees_bind.
  - destruct (is_pure_permutation _ _ _); [|by apply agrees_ret].
    apply agrees_lift_bind; [done|]; intros permutation _.
    destruct (1 <? length permutation)%nat;
      [by apply agrees_transpose|by apply agrees_ret].
  - intros σ1 r1 x1 Hσ1 H1.
    apply agrees_lift_bind; [done|]; intros [final_shape repeat_indices] _.
    by apply agrees_execute.
Qed.
End agreement.

(** The property is one of [rearrange], not of the interface: a program
    that assigns into a view of its argument changes the argument. *)
Example fill_through_view_changes_base :
  Store.deref
    (fill_transposed (NumPy0 := Store.store_numpy (H := never_copies))
       1%positive (7 : Z) one_matrix).2 1%positive
  = Some {| shape := [2; 3]%nat; data := [7; 7; 7; 7; 7; 7] |}.
Proof. vm_compute. reflexivity. Qed.

(** * Further properties of the code *)

(** *** Strings *)

Lemma string_app_nil_r (s : string) : s +:+ "" = s.
Proof. unfold String.app. induction s as [|a s IH]; simpl; [done|]. by rewrite IH. Qed.

Lemma string_app_cons a (s t : string) : String a s +:+ t = String a (s +:+ t).
Proof. done. Qed.

Lemma string_app_assoc (s t u : string) : (s +:+ t) +:+ u = s +:+ t +:+ u.
Proof. unfold String.app. induction s as [|a s IH]; simpl; [done|]. by rewrite IH. Qed.

Lemma string_length_app (s t : string) :
  String.length (s +:+ t) = (String.length s + String.length t)%nat.
Proof. unfold String.app. induction s as [|a s IH]; simpl; [done|]. by rewrite IH. Qed.

Lemma rev_app_app (s t : string) : String.rev_app s t = String.rev_app s "" +:+ t.
Proof.
  revert t. induction s as [|a s IH]; intros t; simpl; [done|].
  rewrite IH, (IH (String a "")). by rewrite string_app_assoc.
Qed.

Lemma string_rev_cons a (s : string) : String.rev (String a s) = String.rev s +:+ String a "".
Proof. unfold String.rev. simpl. apply rev_app_app. Qed.

(** *** Splitting at the arrow *)

Lemma has_arrow_cons a s :
  Str.has_arrow (String a s)
  = (Str.ascii_eqb a "-" && starts_gt s) || Str.has_arrow s.
Proof.
  destruct (Ascii.ascii_dec a "-") as [->|Ha].
  - destruct s as [|b s]; [done|].
    destruct (Ascii.ascii_dec b ">") as [->|Hb]; [done|].
    destruct b as [[] [] [] [] [] [] [] []]; done.
  - destruct a as [[] [] [] [] [] [] [] []]; done.
Qed.

Lemma split_arrow_go_cons cur a s :
  Str.split_arrow_go cur (String a s)
  = if Str.ascii_eqb a "-" && starts_gt s
    then String.rev cur :: Str.split_arrow_go "" (match s with String _ s' => s' | "" => "" end)
    else Str.split_arrow_go (String a cur) s.
Proof.
  destruct (Ascii.ascii_dec a "-") as [->|Ha].
  - destruct s as [|b s]; [done|].
    destruct (Ascii.ascii_dec b ">") as [->|Hb]; [done|].
    destruct b as [[] [] [] [] [] [] [] []]; done.
  - destruct a as [[] [] [] [] [] [] [] []]; done.
Qed.

Lemma starts_gt_app (s t : string) :
  starts_gt (s +:+ "->" +:+ t) = starts_gt s.
Proof. by destruct s. Qed.

Lemma split_arrow_go_length cur s : (1 ≤ length (Str.split_arrow_go cur s))%nat.
Proof.
  remember (String.length s) as n eqn:Hn. revert cur s Hn.
  induction (lt_wf n) as [n _ IH]; intros cur s ->.
  destruct s as [|a s]; [simpl; lia|].
  rewrite split_arrow_go_cons. destruct (_ && _); [simpl; lia|].
  eapply IH; [|done]. simpl; lia.
Qed.

(** No arrow in [a]: the first piece is [a]. *)
Lemma split_arrow_go_first a : ∀ cur b,
  Str.has_arrow a = false →
  Str.split_arrow_go cur (a +:+ "->" +:+ b)
  = (String.rev cur +:+ a) :: Str.split_arrow_go "" b.
Proof.
  induction a as [|c a IH]; intros cur b Ha.
  - by rewrite string_app_nil_r.
  - rewrite has_arrow_cons in Ha. apply orb_false_iff in Ha as [Hc Ha].
    rewrite string_app_cons, split_arrow_go_cons, starts_gt_app, Hc.
    rewrite IH by done. rewrite string_rev_cons, string_app_assoc. done.
Qed.

Lemma split_arrow_go_none b : ∀ cur,
  Str.has_arrow b = false → Str.split_arrow_go cur b = [String.rev cur +:+ b].
Proof.
  induction b as [|c b IH]; intros cur Hb.
  - simpl. by rewrite string_app_nil_r.
  - rewrite has_arrow_cons in Hb. apply orb_false_iff in Hb as [Hc Hb].
    rewrite split_arrow_go_cons, Hc, IH by done.
    rewrite string_rev_cons, string_app_assoc. done.
Qed.

Lemma has_arrow_app a b : Str.has_arrow (a +:+ "->" +:+ b) = true.
Proof.
  induction a as [|c a IH]; [done|].
  rewrite string_app_cons, has_arrow_cons, IH. apply orb_true_r.
Qed.

Lemma has_arrow_split p :
  Str.has_arrow p = true → ∃ a b, p = a +:+ "->" +:+ b.
Proof.
  induction p as [|c p IH]; [done|].
  rewrite has_arrow_cons. intros [Hc|Hp]%orb_true_iff.
  - apply andb_true_iff in Hc as [Hc Hgt].
    apply bool_decide_eq_true in Hc as ->.
    destruct p as [|d p]; [done|]. exists "", p.
    destruct (Ascii.ascii_dec d ">") as [->|Hd]; [done|].
    destruct d as [[] [] [] [] [] [] [] []]; done.
  - destruct (IH Hp) as (a & b & ->). by exists (String c a), b.
Qed.

(** With an arrow after [a], there are pieces before those of the rest. *)
Lemma split_arrow_go_more a : ∀ cur b,
  (1 + length (Str.split_arrow_go "" b)
   ≤ length (Str.split_arrow_go cur (a +:+ "->" +:+ b)))%nat.
Proof.
  remember (String.length a) as n eqn:Hn. revert a Hn.
  induction (lt_wf n) as [n _ IH]; intros a -> cur b.
  destruct a as [|c a]; [by rewrite split_arrow_go_first|].
  rewrite string_app_cons, split_arrow_go_cons, starts_gt_app.
  destruct (Str.ascii_eqb c "-" && starts_gt a) eqn:Hc.
  - apply andb_true_iff in Hc as [_ Hgt]. destruct a as [|d a]; [done|].
    rewrite string_app_cons. cbn [length].
    assert (Hlt : (String.length a < String.length (String c (String d a)))%nat)
      by (simpl; lia).
    pose proof (IH (String.length a) Hlt a eq_refl "" b) as H.
    simpl in *. lia.
  - apply (IH (String.length a)); [simpl; lia|done].
Qed.

(** X1. [parse_pattern] raises the "missing arrow" error exactly for the
    patterns in which the text [->] does not occur. *)
Theorem parse_pattern_raises_MissingArrow_iff (pattern : string) :
  parse_pattern pattern = Raise (EinopsError MissingArrow)
  ↔ ∀ a b, pattern ≠ a +:+ "->" +:+ b.
Proof.
  unfold parse_pattern. split.
  - intros Hraise a b ->. rewrite has_arrow_app in Hraise.
    cbn [negb raise_if mbind result_bind] in Hraise.
    destruct (Str.split_arrow _) as [|p1 [|p2 [|p3 l]]]; discriminate.
  - intros Hno. destruct (Str.has_arrow pattern) eqn:Harrow; [|done].
    destruct (has_arrow_split _ Harrow) as (a & b & ->). by destruct (Hno a b).
Qed.

(** X2. A pattern with one arrow, that is two arrow-free texts joined by
    [->], parses to the tokens of the text before the arrow and the tokens
    of the text after it. *)
Theorem parse_pattern_one_arrow (input_part output_part : string) :
  Str.has_arrow input_part = false → Str.has_arrow output_part = false →
  parse_pattern (input_part +:+ "->" +:+ output_part)
  = Ok (tokenize input_part, tokenize output_part).
Proof.
  intros Ha Hb. unfold parse_pattern, Str.split_arrow.
  rewrite has_arrow_app, split_arrow_go_first, split_arrow_go_none by done.
  done.
Qed.

Lemma parse_pattern_one_arrow_witness :
  parse_pattern ("b (h w) c " +:+ "->" +:+ " b c h w")
  = Ok (tokenize "b (h w) c ", tokenize " b c h w").
Proof. apply parse_pattern_one_arrow; reflexivity. Defined.

(** X3. A pattern with two or more arrows is not reported as an
    [EinopsError]: unpacking the pieces into two names raises Python's
    [ValueError]. *)
Theorem parse_pattern_two_arrows (a b c : string) :
  parse_pattern (a +:+ "->" +:+ b +:+ "->" +:+ c) = Raise ValueError.
Proof.
  unfold parse_pattern, Str.split_arrow. rewrite has_arrow_app. simpl.
  pose proof (split_arrow_go_more a "" (b +:+ "->" +:+ c)) as H1.
  pose proof (split_arrow_go_more b "" c) as H2.
  pose proof (split_arrow_go_length "" c) as H3.
  destruct (Str.split_arrow_go "" (a +:+ "->" +:+ b +:+ "->" +:+ c))
    as [|p1 [|p2 [|p3 l]]]; simpl in *; try lia. done.
Qed.

(** *** The tokenizer *)

(** X4. No token of [tokenize] is empty, and none begins with whitespace. *)
Theorem tokens_start_with_nonspace (expr t : string) :
  t ∈ tokenize expr → ∃ a t', t = String a t' ∧ Str.isspace a = false.
Proof.
  unfold tokenize, Str.findall.
  generalize (S (String.length (Str.strip (Str.replace_dots " ... " expr)))).
  generalize (Str.strip (Str.replace_dots " ... " expr)).
  intros s fuel.
  revert s. induction fuel as [|fuel IH]; intros s Hin; [by apply elem_of_nil in Hin|].
  destruct s as [|a s']; [by apply elem_of_nil in Hin|].
  cbn [Str.findall_go] in Hin.
  destruct (if Str.ascii_eqb a "(" then Str.lazy_to_close s' else None)
    as [[m rest]|] eqn:Hopen.
  - apply elem_of_cons in Hin as [->|Hin]; [|by eapply IH].
    exists a, m. split; [done|].
    unfold Str.ascii_eqb in Hopen. case_bool_decide as Ha; [|done]. by subst a.
  - assert (Hrun : Str.isspace a = false →
                   t ∈ (let '(run, rest) := Str.span_nonspace (String a s') in
                        run :: Str.findall_go fuel rest) →
                   ∃ a t', t = String a t' ∧ Str.isspace a = false).
    { intros Ha. cbn [Str.span_nonspace]. rewrite Ha.
      destruct (Str.span_nonspace s') as [run rest].
      intros [->|Hin']%elem_of_cons; [by exists a, run|by eapply IH]. }
    assert (Hother : t ∈ (if Str.isspace a then Str.findall_go fuel s'
                          else let '(run, rest) := Str.span_nonspace (String a s') in
                               run :: Str.findall_go fuel rest) →
                     ∃ a t', t = String a t' ∧ Str.isspace a = false).
    { destruct (Str.isspace a) eqn:Ha; [by apply IH|by apply Hrun]. }
    destruct (decide (a = "."%char)) as [->|Hdot]; [|].
    + destruct s' as [|b s'']; [by apply Hother|].
      destruct (decide (b = "."%char)) as [->|Hb].
      * destruct s'' as [|c s3]; [by apply Hother|].
        destruct (decide (c = "."%char)) as [->|Hc].
        -- apply elem_of_cons in Hin as [->|Hin]; [by exists "."%char, ".."|by eapply IH].
        -- apply Hother.
           destruct c as [[] [] [] [] [] [] [] []]; try exact Hin. by destruct Hc.
      * apply Hother.
        destruct b as [[] [] [] [] [] [] [] []]; try exact Hin. by destruct Hb.
    + apply Hother.
      destruct a as [[] [] [] [] [] [] [] []]; try exact Hin. by destruct Hdot.
Qed.

Lemma tokens_start_with_nonspace_witness :
  ∃ a t', "(b c)" = String a t' ∧ Str.isspace a = false.
Proof.
  apply (tokens_start_with_nonspace "a (b c)" "(b c)").
  vm_compute. apply elem_of_cons. right. apply elem_of_cons. by left.
Defined.

(** *** The keys of [axes_lengths] *)

(** X5. [validate_axes_lengths] accepts exactly when every key of
    [axes_lengths] is one of the identifiers collected from the pattern. *)
Theorem validate_axes_lengths_accepts_iff pattern (axes_lengths : gmap string Z) :
  validate_axes_lengths pattern axes_lengths = Ok tt
  ↔ ∀ k, is_Some (axes_lengths !! k) → k ∈ _collect_identifiers pattern.
Proof.
  unfold validate_axes_lengths, raise_if.
  set (ids := _collect_identifiers pattern).
  set (keys := map fst (map_to_list axes_lengths)).
  assert (Hkeys : ∀ k, k ∈ keys ↔ is_Some (axes_lengths !! k)).
  { intros k. unfold keys. rewrite list_elem_of_fmap. split.
    - intros [[k' v] [-> Hin]]. apply elem_of_map_to_list in Hin. by exists v.
    - intros [v Hv]. exists (k, v). split; [done|]. by apply elem_of_map_to_list. }
  split.
  - intros Hok k Hk. apply Hkeys in Hk.
    destruct (decide (k ∈ ids)) as [|Hnot]; [done|].
    assert (Hin : k ∈ filter (λ k, k ∉ ids) keys) by (apply list_elem_of_filter; done).
    case_bool_decide as Hnil; [|done].
    rewrite Hnil in Hin. by apply elem_of_nil in Hin.
  - intros Hall.
    assert (Hnil : filter (λ k, k ∉ ids) keys = []).
    { apply elem_of_nil_inv. intros k Hin. apply list_elem_of_filter in Hin as [Hnot Hin].
      apply Hnot, Hall, Hkeys, Hin. }
    rewrite Hnil. by rewrite bool_decide_eq_true_2.
Qed.

Section hint_keys.
Context {A : Type}.

(** X6. A key of [axes_lengths] that is no identifier of the pattern makes
    [rearrange] raise the "unexpected key" error before anything else is
    looked at: for every tensor and every pattern text, well formed or not. *)
Theorem hint_key_outside_pattern_raises (tensor : ndarray A) pattern
    (axes_lengths : gmap string Z) k :
  is_Some (axes_lengths !! k) → k ∉ _collect_identifiers pattern →
  rearrange tensor pattern axes_lengths = Raise (EinopsError UnexpectedAxesLengthsKey).
Proof.
  intros Hk Hnot. unfold rearrange.
  assert (Hv : validate_axes_lengths pattern axes_lengths
             = Raise (EinopsError UnexpectedAxesLengthsKey)).
  { unfold validate_axes_lengths, raise_if.
    case_bool_decide as Hnil; [|done]. exfalso.
    assert (Hin : k ∈ filter (λ k, k ∉ _collect_identifiers pattern)
                    (map fst (map_to_list axes_lengths))).
    { apply list_elem_of_filter. split; [done|].
      destruct Hk as [v Hv]. apply list_elem_of_fmap. exists (k, v).
      split; [done|]. by apply elem_of_map_to_list. }
    rewrite Hnil in Hin. by apply elem_of_nil in Hin. }
  rewrite Hv. reflexivity.
Qed.
End hint_keys.

Lemma hint_key_outside_pattern_raises_witness :
  rearrange (arange [2; 3]%nat) "a b" {[ "c" := 2 ]}
  = Raise (EinopsError UnexpectedAxesLengthsKey).
Proof.
  apply (hint_key_outside_pattern_raises _ _ _ "c"); [by eexists|].
  vm_compute. intros H. repeat (apply elem_of_cons in H as [H|H]; [discriminate|]).
  by apply elem_of_nil in H.
Defined.

(** *** What the composite branch leaves in [dim_sizes] *)

Lemma bind_known_lookup_known (kw ds : gmap string Z) comps c n :
  kw !! c = Some n → c ∈ comps → bind_known kw ds comps !! c = Some n.
Proof.
  intros Hc. revert ds. unfold bind_known.
  induction comps as [|c' comps IH] using rev_ind; intros ds Hin.
  - by apply elem_of_nil in Hin.
  - rewrite foldl_app. cbn [foldl].
    destruct (decide (c' = c)) as [->|Hne].
    + rewrite Hc. apply lookup_insert_eq.
    + apply elem_of_app in Hin as [Hin|Hin%list_elem_of_singleton]; [|done].
      destruct (kw !! c'); [rewrite lookup_insert_ne by done|]; by apply IH.
Qed.

Lemma bind_known_is_Some (kw ds : gmap string Z) comps c :
  is_Some (ds !! c) → is_Some (bind_known kw ds comps !! c).
Proof.
  revert ds. unfold bind_known. induction comps as [|c' comps IH]; intros ds Hc; [done|].
  cbn [foldl]. apply IH. destruct (kw !! c'); [|done].
  rewrite lookup_insert. by case_decide.
Qed.

(** The composite branch, when it goes through: the members' sizes. *)
Lemma process_composite_sizes (shape : list nat) (kw : gmap string Z) st dim st' :
  is_composite dim = true →
  process_input_dim shape kw st dim = Ok st' →
  ∃ total q,
    shape !! pos st = Some total
    ∧ foldr Z.mul 1 (omap (λ c, kw !! c) (components_of dim))
      * q ^ Z.of_nat (length (unknown_members kw dim)) = Z.of_nat total
    ∧ (∀ c, c ∈ components_of dim →
         dim_sizes st' !! c = Some (default q (kw !! c)))
    ∧ (∀ c, is_Some (dim_sizes st !! c) → is_Some (dim_sizes st' !! c)).
Proof.
  unfold is_composite, unknown_members, components_of.
  intros [Hd Hc]%andb_true_iff. apply negb_true_iff in Hd.
  unfold process_input_dim. rewrite Hd, Hc. unfold py_index.
  destruct (shape !! pos st) as [total|]; [|done]. cbn [fmap result_fmap mbind result_bind].
  rewrite component_loop.
  set (comps := Str.split (Str.strip_parens dim)).
  set (K := foldr Z.mul 1 (omap (λ c, kw !! c) comps)).
  destruct (filter (λ c, kw !! c = None) comps) as [|u [|u' l]] eqn:Hunknown;
    cbn [mbind result_bind]; [| |done].
  - (* every member has a length *)
    rewrite Z.mul_1_l. destruct (Z.of_nat total =? K) eqn:Heq; [|done].
    apply Z.eqb_eq in Heq. cbn. intros [= <-]. exists total, 1.
    split; [done|]. split; [cbn; lia|]. cbn [dim_sizes]. split.
    + intros c Hin. destruct (kw !! c) as [n|] eqn:Hkw.
      * by apply bind_known_lookup_known.
      * assert (c ∈ filter (λ c, kw !! c = None) comps) as Hf
          by (by apply list_elem_of_filter).
        rewrite Hunknown in Hf. by apply elem_of_nil in Hf.
    + intros c. apply bind_known_is_Some.
  - (* one member without a length *)
    rewrite Z.mul_1_l. unfold py_mod, py_floordiv.
    destruct (K =? 0) eqn:HK; [done|]. apply Z.eqb_neq in HK.
    cbn [mbind result_bind].
    destruct (Z.of_nat total `mod` K =? 0) eqn:Hr; [|done].
    apply Z.eqb_eq in Hr. cbn. intros [= <-].
    exists total, (Z.of_nat total `div` K). split; [done|]. split.
    { cbn [length]. rewrite Z.pow_1_r. symmetry. by apply Z_div_exact_full_2. }
    cbn [dim_sizes].
    assert (Hu : kw !! u = None).
    { assert (u ∈ filter (λ c, kw !! c = None) comps) as Hf
        by (rewrite Hunknown; left).
      by apply list_elem_of_filter in Hf as [? _]. }
    split.
    + intros c Hin. destruct (kw !! c) as [n|] eqn:Hkw.
      * rewrite lookup_insert_ne by congruence. by apply bind_known_lookup_known.
      * assert (c ∈ filter (λ c, kw !! c = None) comps) as Hf
          by (by apply list_elem_of_filter).
        rewrite Hunknown in Hf. apply list_elem_of_singleton in Hf as ->.
        apply lookup_insert_eq.
    + intros c Hc'. rewrite lookup_insert. case_decide; [done|].
      by apply bind_known_is_Some.
Qed.

(** The product loop of the output side. *)
Lemma output_product (ds : gmap string Z) (value : string → Z) comps : ∀ size,
  (∀ c, c ∈ comps → ds !! c = Some (value c)) →
  for_each (λ size comp, s ← py_getitem ds comp; Ok (size * s)) size comps
  = Ok (size * foldr Z.mul 1 (value <$> comps)).
Proof.
  induction comps as [|c comps IH]; intros size Hds.
  - cbn. f_equal. lia.
  - cbn [for_each].
    assert (py_getitem ds c = Ok (value c)) as ->
      by (unfold py_getitem; by rewrite Hds by left).
    cbn [mbind result_bind]. rewrite IH by (intros; apply Hds; by right).
    cbn [fmap list_fmap foldr]. f_equal. lia.
Qed.

Lemma product_of_member_sizes (kw : gmap string Z) (q : Z) comps :
  foldr Z.mul 1 ((λ c, default q (kw !! c)) <$> comps)
  = foldr Z.mul 1 (omap (λ c, kw !! c) comps)
    * q ^ Z.of_nat (length (filter (λ c, kw !! c = None) comps)).
Proof.
  induction comps as [|c comps IH]; [done|].
  cbn [fmap list_fmap foldr omap list_omap]. rewrite filter_cons, IH.
  destruct (kw !! c) as [n|] eqn:Hc; cbn [default foldr].
  - case_decide; [congruence|]. unfold id. ring.
  - case_decide; [|congruence]. cbn [length].
    rewrite Nat2Z.inj_succ, Z.pow_succ_r by lia. unfold id. ring.
Qed.

Lemma composite_not_ellipsis dim : Str.contains "(" dim = true → is_ellipsis dim = false.
Proof.
  intros H. apply bool_decide_eq_false_2. intros ->. done.
Qed.

(** One round of the resolver: the axis under the cursor exists, the names of
    the token have a size afterwards, and no name loses its size. *)
Lemma process_input_dim_binds (shape : list nat) (kw : gmap string Z) st dim st' :
  process_input_dim shape kw st dim = Ok st' →
  (pos st < length shape)%nat
  ∧ (∀ name, name ∈ bound_names dim → is_Some (dim_sizes st' !! name))
  ∧ (∀ name, is_Some (dim_sizes st !! name) → is_Some (dim_sizes st' !! name)).
Proof.
  intros Hstep.
  destruct (Str.startswith "_d" dim) eqn:Hd; [|destruct (Str.contains "(" dim) eqn:Hp].
  - revert Hstep. unfold process_input_dim, bound_names, py_index. rewrite Hd.
    destruct (shape !! pos st) as [n|] eqn:Hn; [|done]. cbn. intros [= <-].
    split; [by apply lookup_lt_Some in Hn|]. cbn [dim_sizes]. split.
    + intros name ->%list_elem_of_singleton. rewrite lookup_insert_eq. by eexists.
    + intros name Hname. rewrite lookup_insert. by case_decide.
  - assert (Hcomp : is_composite dim = true) by (unfold is_composite; by rewrite Hd, Hp).
    destruct (process_composite_sizes _ _ _ _ _ Hcomp Hstep)
      as (total & q & Htotal & _ & Hsizes & Hmono).
    split; [by apply lookup_lt_Some in Htotal|]. split; [|done].
    unfold bound_names. rewrite Hd, Hp. intros name Hin.
    rewrite (Hsizes name Hin). by eexists.
  - revert Hstep. unfold process_input_dim, bound_names, py_index. rewrite Hd, Hp.
    destruct (length shape <=? pos st)%nat eqn:Hlen; [done|].
    apply Nat.leb_gt in Hlen. cbn [raise_if mbind result_bind].
    destruct (shape !! pos st) as [n|] eqn:Hn; [|done].
    cbn [fmap result_fmap mbind result_bind].
    assert (∀ ds : gmap string Z, (∀ name, name ∈ [dim] → is_Some (ds !! name)) →
              (∀ name, is_Some (dim_sizes st !! name) → is_Some (ds !! name)) →
              Ok {| dim_sizes := ds; composite_dims := composite_dims st;
                    pos := S (pos st);
                    input_dim_to_pos := <[dim := pos st]> (input_dim_to_pos st) |}
              = Ok st' →
              (pos st < length shape)%nat
              ∧ (∀ name, name ∈ [dim] → is_Some (dim_sizes st' !! name))
              ∧ (∀ name, is_Some (dim_sizes st !! name) → is_Some (dim_sizes st' !! name)))
      as Hfin by (intros ds H1 H2 [= <-]; done).
    destruct (kw !! dim) as [hint|].
    + destruct (negb (Z.of_nat n =? hint) && negb (Z.of_nat n =? 1)); [done|].
      cbn [raise_if mbind result_bind]. apply Hfin.
      * intros name ->%list_elem_of_singleton. rewrite lookup_insert_eq. by eexists.
      * intros name Hname. rewrite lookup_insert. by case_decide.
    + cbn [mbind result_bind]. apply Hfin.
      * intros name ->%list_elem_of_singleton. rewrite lookup_insert_eq. by eexists.
      * intros name Hname. rewrite lookup_insert. by case_decide.
Qed.

Lemma process_input_dims_cursor (shape : list nat) (kw : gmap string Z) dims :
  ∀ st st', for_each (process_input_dim shape kw) st dims = Ok st' →
  pos st' = (pos st + length dims)%nat
  ∧ (dims ≠ [] → pos st' ≤ length shape)%nat.
Proof.
  induction dims as [|d dims IH]; intros st st'; cbn [for_each].
  - intros [= <-]. split; [cbn; lia|done].
  - destruct (process_input_dim shape kw st d) as [st1|] eqn:Hd; [|done].
    cbn [mbind result_bind]. intros Hrest.
    destruct (process_input_dim_binds _ _ _ _ _ Hd) as (Hlt & _ & _).
    destruct (process_input_dim_position _ _ _ _ _ d Hd) as [Hpos _].
    destruct (IH _ _ Hrest) as [Hpos' Hle]. split; [cbn [length]; lia|].
    intros _. destruct dims as [|d' dims]; [|apply Hle; done].
    cbn in Hpos'. lia.
Qed.

(** X8. A successful run of the input loop has moved the cursor by one
    axis per token, and the tokens are no more than the axes of the tensor. *)
Theorem resolver_consumes_one_axis_per_token
    (shape : list nat) (kw : gmap string Z) full_input_dims st :
  process_input_dims shape kw full_input_dims = Ok st →
  pos st = length full_input_dims
  ∧ (length full_input_dims ≤ length shape)%nat.
Proof.
  intros Hrun. destruct (process_input_dims_cursor _ _ _ _ _ Hrun) as [Hpos Hle].
  cbn in Hpos. split; [done|].
  destruct full_input_dims as [|d dims]; [cbn; lia|]. rewrite <-Hpos. by apply Hle.
Qed.

Lemma resolver_consumes_one_axis_per_token_witness :
  ∃ st, process_input_dims [2; 6; 4; 5]%nat {[ "c" := 2 ]} ["_d0"; "(b c)"; "h"] = Ok st
  ∧ pos st = length ["_d0"; "(b c)"; "h"]
  ∧ (length ["_d0"; "(b c)"; "h"] ≤ length [2; 6; 4; 5]%nat)%nat.
Proof.
  eexists. split; [vm_compute; reflexivity|].
  apply (resolver_consumes_one_axis_per_token [2; 6; 4; 5]%nat {[ "c" := 2 ]}).
  vm_compute. reflexivity.
Defined.

Lemma process_input_dims_binds (shape : list nat) (kw : gmap string Z) dims :
  ∀ st st', for_each (process_input_dim shape kw) st dims = Ok st' →
  (∀ name, is_Some (dim_sizes st !! name) → is_Some (dim_sizes st' !! name))
  ∧ (∀ name j, input_dim_to_pos st !! name = Some j → (j < pos st)%nat →
       ∃ j', input_dim_to_pos st' !! name = Some j' ∧ (j' < pos st')%nat)
  ∧ (∀ dim name, dim ∈ dims → name ∈ bound_names dim →
       is_Some (dim_sizes st' !! name)
       ∧ ∃ j', input_dim_to_pos st' !! name = Some j' ∧ (j' < pos st')%nat).
Proof.
  induction dims as [|d dims IH]; intros st st'; cbn [for_each].
  - intros [= <-]. split; [done|]. split; [eauto|].
    intros dim name Hin. by apply elem_of_nil in Hin.
  - destruct (process_input_dim shape kw st d) as [st1|] eqn:Hd; [|done].
    cbn [mbind result_bind]. intros Hrest.
    destruct (process_input_dim_binds _ _ _ _ _ Hd) as (_ & Hnames & Hmono).
    destruct (IH _ _ Hrest) as (Hmono' & Hpos' & Hbound').
    assert (Hstep : ∀ name j, input_dim_to_pos st !! name = Some j → (j < pos st)%nat →
              ∃ j1, input_dim_to_pos st1 !! name = Some j1 ∧ (j1 < pos st1)%nat).
    { intros name j Hj Hlt.
      destruct (process_input_dim_position _ _ _ _ _ name Hd) as [Hp ->].
      case_decide; [exists (pos st)|exists j]; split; try done; lia. }
    split; [auto|]. split.
    + intros name j Hj Hlt. destruct (Hstep name j Hj Hlt) as (j1 & Hj1 & Hlt1). eauto.
    + intros dim name [->|Hin]%elem_of_cons Hname; [|by eapply Hbound'].
      split; [auto|].
      destruct (process_input_dim_position _ _ _ _ _ name Hd) as [Hp Hlook].
      rewrite decide_True in Hlook by done.
      apply (Hpos' name (pos st)); [done|lia].
Qed.

(** X9. After a successful run of the input loop every name bound by an
    input token has a size in [dim_sizes] and a position in
    [input_dim_to_pos] that is an axis of the tensor. *)
Theorem resolver_binds_every_input_name
    (shape : list nat) (kw : gmap string Z) full_input_dims st :
  process_input_dims shape kw full_input_dims = Ok st →
  ∀ dim name, dim ∈ full_input_dims → name ∈ bound_names dim →
    is_Some (dim_sizes st !! name)
    ∧ ∃ j, input_dim_to_pos st !! name = Some j ∧ (j < length shape)%nat.
Proof.
  intros Hrun dim name Hdim Hname.
  destruct (process_input_dims_binds _ _ _ _ _ Hrun) as (_ & _ & Hbound).
  destruct (Hbound dim name Hdim Hname) as (Hsize & j & Hj & Hlt).
  split; [done|]. exists j. split; [done|].
  destruct (process_input_dims_cursor _ _ _ _ _ Hrun) as [Hpos Hle].
  assert (full_input_dims ≠ []) as Hne by (intros ->; by apply elem_of_nil in Hdim).
  specialize (Hle Hne). lia.
Qed.

Lemma resolver_binds_every_input_name_witness :
  ∃ st, process_input_dims [2; 6; 4; 5]%nat {[ "c" := 2 ]} ["_d0"; "(b c)"; "h"] = Ok st
  ∧ ∀ dim name, dim ∈ ["_d0"; "(b c)"; "h"] → name ∈ bound_names dim →
      is_Some (dim_sizes st !! name)
      ∧ ∃ j, input_dim_to_pos st !! name = Some j ∧ (j < length [2; 6; 4; 5]%nat)%nat.
Proof.
  eexists. split; [vm_compute; reflexivity|].
  apply (resolver_binds_every_input_name [2; 6; 4; 5]%nat {[ "c" := 2 ]}).
  vm_compute. reflexivity.
Defined.

(** *** A composite token on both sides *)

(** A token leaves the sizes of the names it does not bind as they are. *)
Lemma process_input_dim_other (shape : list nat) (kw : gmap string Z) st dim st' name :
  process_input_dim shape kw st dim = Ok st' →
  name ∉ bound_names dim →
  dim_sizes st' !! name = dim_sizes st !! name.
Proof.
  unfold process_input_dim, bound_names, components_of.
  destruct (Str.startswith "_d" dim) eqn:Hd; [|destruct (Str.contains "(" dim) eqn:Hp].
  - destruct (py_index shape (pos st)) as [n|]; [|done]. cbn. intros [= <-] Hname.
    cbn [dim_sizes]. apply lookup_insert_ne. intros ->. apply Hname. left.
  - destruct (py_index shape (pos st)) as [total|]; [|done].
    cbn [fmap result_fmap mbind result_bind]. rewrite component_loop.
    set (comps := Str.split (Str.strip_parens dim)).
    assert (Hknown : name ∉ comps →
              bind_known kw (dim_sizes st) comps !! name = dim_sizes st !! name).
    { unfold bind_known. generalize (dim_sizes st).
      induction comps as [|c comps IH]; intros ds Hname; [done|].
      apply not_elem_of_cons in Hname as [Hne Hname]. cbn [foldl].
      rewrite IH by done. destruct (kw !! c); [|done]. by apply lookup_insert_ne. }
    destruct (filter (λ c, kw !! c = None) comps) as [|u [|u' l]] eqn:Hunknown;
      cbn [mbind result_bind]; [| |done].
    + destruct (raise_if _ _); [|done]. cbn. intros [= <-] Hname. cbn [dim_sizes]. auto.
    + destruct (py_mod _ _) as [r|]; [|done]. cbn [mbind result_bind].
      destruct (raise_if _ _); [|done]. cbn [mbind result_bind].
      destruct (py_floordiv _ _) as [q|]; [|done]. cbn. intros [= <-] Hname.
      cbn [dim_sizes]. rewrite lookup_insert_ne; [auto|].
      intros <-. apply Hname.
      assert (u ∈ filter (λ c, kw !! c = None) comps) as Hf by (rewrite Hunknown; left).
      by apply list_elem_of_filter in Hf as [_ ?].
  - destruct (raise_if _ _); [|done]. cbn [mbind result_bind].
    destruct (py_index shape (pos st)) as [n|]; [|done].
    cbn [fmap result_fmap mbind result_bind].
    intros Hrun Hname.
    assert (Hne : dim ≠ name) by (intros ->; apply Hname; left).
    destruct (kw !! dim) as [hint|].
    + destruct (raise_if _ _); [|done]. cbn in Hrun. injection Hrun as <-.
      cbn [dim_sizes]. by apply lookup_insert_ne.
    + cbn in Hrun. injection Hrun as <-. cbn [dim_sizes]. by apply lookup_insert_ne.
Qed.

Lemma process_input_dims_other (shape : list nat) (kw : gmap string Z) dims name :
  ∀ st st', for_each (process_input_dim shape kw) st dims = Ok st' →
  (∀ d, d ∈ dims → name ∉ bound_names d) →
  dim_sizes st' !! name = dim_sizes st !! name.
Proof.
  induction dims as [|d dims IH]; intros st st'; cbn [for_each].
  - by intros [= <-].
  - destruct (process_input_dim shape kw st d) as [st1|] eqn:Hd; [|done].
    cbn [mbind result_bind]. intros Hrest Hname.
    rewrite (IH _ _ Hrest) by (intros; apply Hname; by right).
    apply (process_input_dim_other _ _ _ _ _ _ Hd). apply Hname. left.
Qed.

(** X7. When the input loop has run through and no token after a composite
    token binds one of its members again, the sizes that [dim_sizes] holds
    for the members at the end of the loop multiply to the extent of the
    axis that the composite token took: the output loop, for the same
    composite token, appends exactly that extent and adds no repeat. *)
Theorem composite_output_extent_is_axis_extent
    (shape : list nat) (kw kw' : gmap string Z) pre dim post st n_ellipsis
    final_shape repeat_indices :
  is_composite dim = true →
  (∀ d c, d ∈ post → c ∈ components_of dim → c ∉ bound_names d) →
  process_input_dims shape kw (pre ++ dim :: post) = Ok st →
  ∃ total, shape !! length pre = Some total
  ∧ output_dim_step kw' (dim_sizes st) n_ellipsis (final_shape, repeat_indices) dim
    = Ok (final_shape ++ [Z.of_nat total], repeat_indices).
Proof.
  intros Hcomp Hlater Hrun. unfold process_input_dims in Hrun.
  rewrite for_each_app in Hrun.
  destruct (for_each (process_input_dim shape kw) initial_state pre) as [st1|] eqn:Hpre;
    [|done].
  cbn [mbind result_bind for_each] in Hrun.
  destruct (process_input_dim shape kw st1 dim) as [st2|] eqn:Hdim; [|done].
  cbn [mbind result_bind] in Hrun.
  destruct (process_input_dims_cursor _ _ _ _ _ Hpre) as [Hpos _].
  cbn [initial_state pos] in Hpos. rewrite Nat.add_0_l in Hpos.
  destruct (process_composite_sizes _ _ _ _ _ Hcomp Hdim)
    as (total & q & Htotal & Hprod & Hsizes & _).
  exists total. split; [by rewrite <-Hpos|].
  apply andb_true_iff in Hcomp as [_ Hparen].
  unfold output_dim_step. rewrite composite_not_ellipsis, Hparen by done.
  fold (components_of dim).
  rewrite (output_product _ (λ c, default q (kw !! c))).
  - cbn [mbind result_bind]. rewrite product_of_member_sizes.
    unfold unknown_members in Hprod. fold (components_of dim).
    rewrite Hprod, Z.mul_1_l. done.
  - intros c Hc. rewrite <-(Hsizes c Hc).
    apply (process_input_dims_other _ _ _ _ _ _ Hrun). intros d Hd. by apply Hlater.
Qed.

Lemma composite_output_extent_is_axis_extent_witness :
  ∃ st, process_input_dims [2; 12; 10]%nat {[ "h" := 3 ]} (["b"] ++ "(h w)" :: ["c"]) = Ok st
  ∧ ∃ total, [2; 12; 10]%nat !! length ["b"] = Some total
    ∧ output_dim_step ∅ (dim_sizes st) 0 ([], []) "(h w)"
      = Ok ([] ++ [Z.of_nat total], []).
Proof.
  eexists. split; [vm_compute; reflexivity|].
  apply (composite_output_extent_is_axis_extent [2; 12; 10]%nat {[ "h" := 3 ]} ∅
           ["b"] "(h w)" ["c"]).
  - reflexivity.
  - intros d c Hd Hc. apply list_elem_of_singleton in Hd as ->.
    vm_compute in Hc. vm_compute.
    intros Hin. apply list_elem_of_singleton in Hin as ->.
    repeat (apply elem_of_cons in Hc as [Hc|Hc]; [discriminate|]).
    by apply elem_of_nil in Hc.
  - vm_compute. reflexivity.
Defined.

(** A member that a later token binds again takes the later size: the
    composite then no longer multiplies to its axis. *)
Example member_rebound_by_later_token :
  rearrange (arange [6; 5]%nat) "(a b) b -> (a b) b" {[ "a" := 2 ]}
  = Raise (EinopsError ReshapeIncompatible)
  ∧ (st ← process_input_dims [6; 5]%nat {[ "a" := 2 ]} ["(a b)"; "b"];
     output_dim_step {[ "a" := 2 ]} (dim_sizes st) 0 ([], []) "(a b)")
    = Ok ([10], []).
Proof. split; vm_compute; reflexivity. Qed.

Lemma process_plain_exhausted (shape : list nat) (kw : gmap string Z) st dim :
  is_plain dim = true → (length shape ≤ pos st)%nat →
  process_input_dim shape kw st dim = Raise (EinopsError NotEnoughDimensions).
Proof.
  intros [Hd Hp]%andb_true_iff Hlen. apply negb_true_iff in Hd, Hp.
  unfold process_input_dim. rewrite Hd, Hp.
  by rewrite (proj2 (Nat.leb_le _ _) Hlen).
Qed.

(** X10. Plain input tokens without length hints, more of them than the
    tensor has axes: the input loop raises the "not enough dimensions" error. *)
Theorem plain_tokens_beyond_rank_raise_NotEnoughDimensions
    (shape : list nat) (kw : gmap string Z) full_input_dims :
  Forall (λ dim, is_plain dim = true ∧ kw !! dim = None) full_input_dims →
  (length shape < length full_input_dims)%nat →
  process_input_dims shape kw full_input_dims
  = Raise (EinopsError NotEnoughDimensions).
Proof.
  intros Hplain Hlt. unfold process_input_dims.
  assert (Hpos : (pos initial_state ≤ length shape)%nat) by (cbn; lia).
  assert (Hend : (length shape < pos initial_state + length full_input_dims)%nat)
    by (cbn; lia).
  revert Hplain Hpos Hend. clear Hlt. generalize initial_state.
  induction full_input_dims as [|d dims IH]; intros st Hplain Hle Hlt;
    [cbn in Hlt; lia|].
  apply Forall_cons in Hplain as [[Hd Hkw] Hplain]. cbn [for_each].
  destruct (decide (pos st = length shape)) as [Heq|Hne].
  - rewrite process_plain_exhausted by (done || lia). done.
  - destruct (lookup_lt_is_Some_2 shape (pos st)) as [n Hn]; [lia|].
    apply andb_true_iff in Hd as [Hd Hp]. apply negb_true_iff in Hd, Hp.
    rewrite (process_plain shape kw st d n) by done. cbn [mbind result_bind].
    apply IH; [done|cbn; lia|cbn in *; lia].
Qed.

Lemma plain_tokens_beyond_rank_raise_NotEnoughDimensions_witness :
  process_input_dims [3; 4]%nat ∅ ["a"; "b"; "c"]
  = Raise (EinopsError NotEnoughDimensions).
Proof.
  apply plain_tokens_beyond_rank_raise_NotEnoughDimensions.
  - repeat constructor.
  - simpl. lia.
Defined.

(** *** The output-shape loop *)

Lemma output_dim_step_inv (kw ds : gmap string Z) n_ellipsis fs ri dim fs' ri' :
  is_ellipsis dim = false →
  output_dim_step kw ds n_ellipsis (fs, ri) dim = Ok (fs', ri') →
  ∃ v, fs' = fs ++ [v]
    ∧ (ri' = ri
       ∨ (ri' = ri ++ [(length fs, v)] ∧ kw !! dim = Some v
          ∧ (ds !! dim = None ∨ ds !! dim = Some 1))).
Proof.
  intros Hell. unfold output_dim_step. rewrite Hell.
  destruct (Str.contains "(" dim).
  - destruct (for_each _ _ _) as [size|]; [|done]. cbn. intros [= <- <-]. eauto.
  - unfold py_getitem. destruct (kw !! dim) as [n|].
    + destruct (bool_decide (ds !! dim = None) || bool_decide (ds !! dim = Some 1)) eqn:Hnew.
      * intros [= <- <-]. exists n. split; [done|]. right.
        rewrite length_app. cbn [length]. rewrite Nat.add_sub. split; [done|].
        split; [done|].
        apply orb_true_iff in Hnew as [H%bool_decide_eq_true|H%bool_decide_eq_true]; auto.
      * destruct (ds !! dim); [|done]. cbn. intros [= <- <-]. eauto.
    + destruct (ds !! dim); [|done]. cbn. intros [= <- <-]. eauto.
Qed.

Lemma output_loop_inv (kw ds : gmap string Z) n_ellipsis out : ∀ fs0 ri0 fs ri,
  Forall (λ dim, is_ellipsis dim = false) out →
  for_each (output_dim_step kw ds n_ellipsis) (fs0, ri0) out = Ok (fs, ri) →
  length fs = (length fs0 + length out)%nat
  ∧ (∀ i, (i < length fs0)%nat → fs !! i = fs0 !! i)
  ∧ (∀ i sz, (i, sz) ∈ ri →
       (i, sz) ∈ ri0
       ∨ ((length fs0 ≤ i)%nat ∧ fs !! i = Some sz
          ∧ ∃ dim, out !! (i - length fs0)%nat = Some dim ∧ kw !! dim = Some sz
                   ∧ (ds !! dim = None ∨ ds !! dim = Some 1))).
Proof.
  induction out as [|d out IH]; intros fs0 ri0 fs ri Hout; cbn [for_each].
  - intros [= <- <-]. split; [cbn; lia|]. split; [done|]. auto.
  - apply Forall_cons in Hout as [Hd Hout].
    destruct (output_dim_step kw ds n_ellipsis (fs0, ri0) d) as [[fs1 ri1]|] eqn:Hstep;
      [|done].
    cbn [mbind result_bind]. intros Hrest.
    destruct (output_dim_step_inv _ _ _ _ _ _ _ _ Hd Hstep) as (v & -> & Hri).
    destruct (IH _ _ _ _ Hout Hrest) as (Hlen & Hpre & Hrep).
    rewrite length_app in Hlen, Hpre, Hrep. cbn [length] in *.
    split; [lia|]. split.
    { intros i Hi. rewrite Hpre by lia. by rewrite lookup_app_l. }
    intros i sz Hin. destruct (Hrep i sz Hin) as [Hin1|(Hle & Hfs & dim & Hdim & Hrest')].
    + destruct Hri as [->|(-> & Hkw & Hds)]; [by left|].
      apply elem_of_app in Hin1 as [Hin1|Hin1%list_elem_of_singleton]; [by left|].
      injection Hin1 as -> ->. right. split; [lia|]. split.
      * rewrite Hpre by lia. rewrite lookup_app_r by lia.
        by rewrite Nat.sub_diag.
      * exists d. rewrite Nat.sub_diag. done.
    + right. split; [lia|]. split; [done|]. exists dim. split; [|done].
      replace (i - length fs0)%nat with (S (i - (length fs0 + 1)))%nat by lia.
      done.
Qed.

(** X11. The output loop yields one extent per output token, and every
    repeat instruction it emits targets the position of a plain token that
    has a length hint and whose input size is absent or 1; the extent at
    that position is the hint. *)
Theorem repeat_instructions_target_hinted_axes
    (kw ds : gmap string Z) n_ellipsis full_output_dims final_shape repeat_indices :
  calc_output_shape kw ds n_ellipsis full_output_dims = Ok (final_shape, repeat_indices) →
  Forall (λ dim, is_ellipsis dim = false) full_output_dims →
  length final_shape = length full_output_dims
  ∧ ∀ i sz, (i, sz) ∈ repeat_indices →
      final_shape !! i = Some sz
      ∧ ∃ dim, full_output_dims !! i = Some dim ∧ kw !! dim = Some sz
               ∧ (ds !! dim = None ∨ ds !! dim = Some 1).
Proof.
  intros Hcalc Hout.
  destruct (output_loop_inv _ _ _ _ _ _ _ _ Hout Hcalc) as (Hlen & _ & Hrep).
  split; [done|]. intros i sz Hin.
  destruct (Hrep i sz Hin) as [Hnil|(_ & Hfs & dim & Hdim & Hrest)].
  - by apply elem_of_nil in Hnil.
  - split; [done|]. exists dim. by rewrite Nat.sub_0_r in Hdim.
Qed.

Lemma repeat_instructions_target_hinted_axes_witness :
  length [3; 4; 5] = length ["a"; "b"; "c"]
  ∧ ∀ i sz, (i, sz) ∈ [(1%nat, 4)] →
      [3; 4; 5] !! i = Some sz
      ∧ ∃ dim, ["a"; "b"; "c"] !! i = Some dim ∧ ({[ "b" := 4 ]} : gmap string Z) !! dim = Some sz
               ∧ (({[ "a" := 3; "1" := 1; "c" := 5 ]} : gmap string Z) !! dim = None
                  ∨ ({[ "a" := 3; "1" := 1; "c" := 5 ]} : gmap string Z) !! dim = Some 1).
Proof.
  apply (repeat_instructions_target_hinted_axes {[ "b" := 4 ]}
           {[ "a" := 3; "1" := 1; "c" := 5 ]} 0 ["a"; "b"; "c"]).
  - vm_compute. reflexivity.
  - repeat constructor.
Defined.

(** X12. A plain output token with neither an input size nor a length hint
    is not reported as an [EinopsError]: the lookup in [dim_sizes] raises
    [KeyError] with the token. *)
Theorem unbound_output_name_raises_KeyError
    (kw ds : gmap string Z) n_ellipsis pre dim post acc :
  for_each (output_dim_step kw ds n_ellipsis) ([], []) pre = Ok acc →
  is_plain dim = true → is_ellipsis dim = false →
  kw !! dim = None → ds !! dim = None →
  calc_output_shape kw ds n_ellipsis (pre ++ dim :: post) = Raise (KeyError dim).
Proof.
  intros Hpre [_ Hp]%andb_true_iff Hell Hkw Hds. apply negb_true_iff in Hp.
  unfold calc_output_shape. rewrite for_each_app, Hpre.
  cbn [mbind result_bind for_each]. destruct acc as [fs ri].
  unfold output_dim_step, py_getitem. by rewrite Hell, Hp, Hkw, Hds.
Qed.

Lemma unbound_output_name_raises_KeyError_witness :
  calc_output_shape ∅ {[ "a" := 3 ]} 0 (["a"] ++ "b" :: []) = Raise (KeyError "b").
Proof.
  eapply (unbound_output_name_raises_KeyError ∅ {[ "a" := 3 ]} 0 ["a"] "b" []).
  - vm_compute. reflexivity.
  - reflexivity.
  - reflexivity.
  - reflexivity.
  - reflexivity.
Defined.

(** *** The order of the repeat instructions *)

Lemma insert_desc_perm x l : insert_desc x l ≡ₚ x :: l.
Proof.
  induction l as [|y l IH]; cbn [insert_desc]; [done|].
  destruct (fst y <=? fst x)%nat; [done|]. rewrite IH. apply Permutation_swap.
Qed.

Lemma insert_desc_sorted x l :
  StronglySorted desc l → StronglySorted desc (insert_desc x l).
Proof.
  induction 1 as [|y l Hl IH Hy]; cbn [insert_desc]; [repeat constructor|].
  destruct (fst y <=? fst x)%nat eqn:Hle.
  - apply Nat.leb_le in Hle. constructor; [by constructor|].
    constructor; [done|]. eapply Forall_impl; [exact Hy|].
    intros z Hz. unfold desc in *. lia.
  - apply Nat.leb_gt in Hle. constructor; [done|].
    rewrite insert_desc_perm. constructor; [unfold desc; lia|done].
Qed.

(** X13. The repeat instructions are applied in an order that is a
    permutation of the emitted ones, with descending target index. *)
Theorem sorted_desc_is_descending_permutation (repeat_indices : list (nat * Z)) :
  sorted_desc repeat_indices ≡ₚ repeat_indices
  ∧ StronglySorted desc (sorted_desc repeat_indices).
Proof.
  unfold sorted_desc. induction repeat_indices as [|x l [IHp IHs]]; cbn [foldr].
  - split; [done|constructor].
  - split; [by rewrite insert_desc_perm, IHp|by apply insert_desc_sorted].
Qed.

Lemma sorted_desc_perm (l : list (nat * Z)) : sorted_desc l ≡ₚ l.
Proof.
  unfold sorted_desc. induction l as [|x l IH]; cbn [foldr]; [done|].
  by rewrite insert_desc_perm, IH.
Qed.

Lemma sorted_desc_sorted (l : list (nat * Z)) : StronglySorted desc (sorted_desc l).
Proof.
  unfold sorted_desc. induction l as [|x l IH]; cbn [foldr]; [constructor|].
  by apply insert_desc_sorted.
Qed.

(** The first instruction applied has the largest target index. *)
Lemma sorted_desc_head (l : list (nat * Z)) idx sz :
  (idx, sz) ∈ l →
  ∃ h t, sorted_desc l = h :: t ∧ (idx ≤ fst h)%nat.
Proof.
  intros Hin. rewrite <-sorted_desc_perm in Hin.
  pose proof (sorted_desc_sorted l) as Hs.
  destruct (sorted_desc l) as [|h t]; [by apply elem_of_nil in Hin|].
  exists h, t. split; [done|].
  apply elem_of_cons in Hin as [<-|Hin]; [done|].
  apply StronglySorted_inv in Hs as [_ Hall].
  rewrite Forall_forall in Hall. apply (Hall _ Hin).
Qed.

Section executor_errors.
Context {A : Type}.
Implicit Types x y : ndarray A.

(** X14. A repeat instruction whose target index is above the rank of the
    array makes the repeat stage fail in [expand_dims] with NumPy's
    [AxisError], which nothing turns into an [EinopsError]. *)
Theorem repeat_beyond_rank_raises_AxisError x repeat_indices final_shape idx sz :
  (idx, sz) ∈ repeat_indices → (ndim x < idx)%nat →
  execute x repeat_indices final_shape = Raise AxisError.
Proof.
  intros Hin Hlt. destruct (sorted_desc_head _ _ _ Hin) as (h & t & Hsorted & Hh).
  unfold execute, apply_repeats.
  destruct repeat_indices as [|i l]; [by apply elem_of_nil in Hin|].
  rewrite Hsorted. destruct h as [idx0 sz0]. cbn [for_each_array fst] in *.
  cbn [np_expand_dims value_numpy].
  rewrite expand_dims_out_of_range by lia. done.
Qed.

(** X16. The final reshape leaves the elements and their order as they
    are and gives the array one axis per requested extent; when it fails,
    the exception is the "reshape" [EinopsError]. *)
Theorem final_reshape_outcome x final_shape :
  match final_reshape x final_shape with
  | Ok y => data y = data x ∧ length (shape y) = length final_shape
  | Raise e => e = EinopsError ReshapeIncompatible
  end.
Proof.
  unfold final_reshape. cbn [try_except np_reshape value_numpy lift].
  unfold Value.reshape.
  destruct (filter (λ d, d < 0) final_shape) as [|d [|d' l]].
  - destruct (_ =? _); [|done]. cbn. by rewrite length_fmap.
  - destruct (_ || _); [done|]. cbn. by rewrite length_fmap.
  - done.
Qed.
End executor_errors.

Lemma repeat_beyond_rank_raises_AxisError_witness :
  execute (arange [2; 3]%nat) [(0%nat, 2); (3%nat, 2)] [2; 2; 3; 2] = Raise AxisError.
Proof.
  apply (repeat_beyond_rank_raises_AxisError (arange [2; 3]%nat) _ _ 3%nat 2).
  - right. left.
  - unfold ndim; simpl; lia.
Defined.

(** *** Row-major indexing *)

Lemma prod_list_cons n s : prod_list (n :: s) = (n * prod_list s)%nat.
Proof. done. Qed.

Lemma unravel_length shape flat : length (unravel shape flat) = length shape.
Proof. revert flat. induction shape as [|n s IH]; intros flat; cbn; [done|]. by rewrite IH. Qed.

Lemma ravel_unravel shape flat :
  (flat < prod_list shape)%nat → ravel shape (unravel shape flat) = flat.
Proof.
  revert flat. induction shape as [|n s IH]; intros flat Hlt.
  - cbn in *. lia.
  - rewrite prod_list_cons in Hlt. cbn [ravel unravel].
    assert (prod_list s ≠ 0)%nat as Hp by (intros Hz; rewrite Hz in Hlt; lia).
    rewrite IH by (by apply Nat.mod_upper_bound).
    rewrite (Nat.div_mod flat (prod_list s)) at 3 by done. lia.
Qed.

(** Reading a list at computed positions. *)
Lemma omap_lookup_ext {X : Type} (d : list X) (f g : nat → nat) (l : list nat) :
  (∀ i, i ∈ l → f i = g i) →
  omap (λ i, d !! f i) l = omap (λ i, d !! g i) l.
Proof.
  induction l as [|i l IH]; intros Hfg; [done|].
  cbn [omap list_omap]. rewrite (Hfg i) by left.
  rewrite IH by (intros; apply Hfg; by right). done.
Qed.

(** The elements read at [g 0 .. g (n-1)], when these positions exist. *)
Lemma omap_lookup_positions {X : Type} (d : list X) (g : nat → nat) n :
  (∀ i, (i < n)%nat → (g i < length d)%nat) →
  length (omap (λ i, d !! g i) (seq 0 n)) = n
  ∧ ∀ i, (i < n)%nat → omap (λ i, d !! g i) (seq 0 n) !! i = d !! g i.
Proof.
  induction n as [|n IH]; intros Hg; [split; [done|intros; lia]|].
  rewrite seq_S, omap_app. cbn [omap list_omap].
  destruct (lookup_lt_is_Some_2 d (g n)) as [v Hv]; [apply Hg; lia|].
  destruct IH as [Hlen Hlook]; [intros; apply Hg; lia|].
  cbn. rewrite Hv. cbn. rewrite length_app, Hlen. cbn. split; [lia|].
  intros i Hi. destruct (decide (i = n)) as [->|Hne].
  - rewrite lookup_app_r by lia. rewrite Hlen, Nat.sub_diag. done.
  - rewrite lookup_app_l by lia. apply Hlook. lia.
Qed.

(** *** The identity permutation *)

Lemma position_seq a : ∀ k n, (k ≤ a < k + n)%nat → Value.position a (seq k n) = (a - k)%nat.
Proof.
  intros k n. revert k. induction n as [|n IH]; intros k Ha; [lia|].
  cbn [seq Value.position]. destruct (a =? k)%nat eqn:Heq.
  - apply Nat.eqb_eq in Heq. lia.
  - apply Nat.eqb_neq in Heq. rewrite IH by lia. lia.
Qed.

Lemma fmap_lookup_seq {X : Type} (l : list X) (dflt : X) :
  (λ a, default dflt (l !! a)) <$> seq 0 (length l) = l.
Proof.
  apply list_eq. intros i. rewrite list_lookup_fmap.
  destruct (decide (i < length l)%nat) as [Hi|Hi].
  - rewrite lookup_seq_lt by done. cbn.
    destruct (lookup_lt_is_Some_2 l i Hi) as [v Hv]. by rewrite Hv.
  - rewrite lookup_seq_ge by lia. cbn. symmetry. apply lookup_ge_None. lia.
Qed.

Section transpose.
Context {A : Type}.
Implicit Types x y : ndarray A.

Lemma transpose_identity x :
  wf x → Value.transpose x (seq 0 (ndim x)) = Ok x.
Proof.
  intros Hwf. unfold Value.transpose, ndim.
  rewrite length_seq, Nat.eqb_refl. cbn [negb].
  assert (existsb (λ a, length (shape x) <=? a)%nat (seq 0 (length (shape x))) = false) as ->.
  { apply not_true_is_false. intros (a & Ha & Hle)%existsb_exists.
    apply list_elem_of_In, elem_of_seq in Ha. apply Nat.leb_le in Hle. lia. }
  rewrite bool_decide_eq_true_2 by apply NoDup_seq. cbn [negb].
  rewrite fmap_lookup_seq. destruct x as [s d].
  unfold wf, size in *. cbn [shape data] in *. f_equal. f_equal.
  rewrite (omap_lookup_ext d _ (λ i, i)).
  - rewrite <-Hwf. apply omap_lookup_seq.
  - intros flat Hflat%elem_of_seq.
    etrans; [|apply (ravel_unravel s flat); lia]. f_equal.
    etrans; [|apply (fmap_lookup_seq (unravel s flat) 0%nat)].
    rewrite unravel_length. apply list_fmap_ext.
    intros i a Ha. apply lookup_seq in Ha as [-> Hlt].
    rewrite position_seq by lia. by rewrite Nat.sub_0_r.
Qed.
End transpose.

Section identity.
Context {A : Type}.
Implicit Types x y : ndarray A.

(** X17. On a well-formed array of rank 3 the pattern [a b c -> a b c]
    returns the array as it is. *)
Theorem identity_pattern_returns_input x :
  ndim x = 3%nat → wf x → rearrange x "a b c -> a b c" ∅ = Ok x.
Proof.
  intros Hrank Hwf. destruct x as [s d]. unfold ndim in Hrank. cbn [shape] in Hrank.
  destruct s as [|a [|b [|c [|? ?]]]]; try discriminate Hrank. clear Hrank.
  unfold rearrange.
  stage (validate_axes_lengths "a b c -> a b c" ∅) (Ok tt).
  stage (parse_pattern "a b c -> a b c") (Ok (["a"; "b"; "c"], ["a"; "b"; "c"])).
  stage (check_pattern ["a"; "b"; "c"] ["a"; "b"; "c"]) (Ok tt).
  stage (expand_ellipsis (length [a; b; c]) ["a"; "b"; "c"] ["a"; "b"; "c"])
        (Ok (["a"; "b"; "c"], ["a"; "b"; "c"], 0%nat)).
  stage (process_input_dims [a; b; c] ∅ ["a"; "b"; "c"])
        (Ok {| dim_sizes := <["c" := Z.of_nat c]> (<["b" := Z.of_nat b]> (<["a" := Z.of_nat a]> ∅));
               composite_dims := ∅; pos := 3;
               input_dim_to_pos := <["c" := 2%nat]> (<["b" := 1%nat]> (<["a" := 0%nat]> ∅)) |}).
  stage (is_pure_permutation ["a"; "b"; "c"] ["a"; "b"; "c"]
           (<["c" := 2%nat]> (<["b" := 1%nat]> (<["a" := 0%nat]> ∅)))) true.
  stage (build_permutation (<["c" := 2%nat]> (<["b" := 1%nat]> (<["a" := 0%nat]> ∅)))
           ["a"; "b"; "c"]) (Ok [0; 1; 2]%nat).
  cbn [length Nat.ltb Nat.leb np_transpose value_numpy].
  assert (Ht : Value.transpose {| shape := [a; b; c]; data := d |} [0; 1; 2]%nat
               = Ok {| shape := [a; b; c]; data := d |})
    by exact (transpose_identity _ Hwf).
  rewrite Ht.
  cbn [mbind result_bind].
  stage (calc_output_shape ∅
           (<["c" := Z.of_nat c]> (<["b" := Z.of_nat b]> (<["a" := Z.of_nat a]> ∅)))
           0 ["a"; "b"; "c"])
        (Ok (Z.of_nat <$> [a; b; c], @nil (nat * Z))).
  unfold execute, apply_repeats, final_reshape.
  cbn [mret np_mret value_numpy result_ret mbind np_mbind result_bind try_except np_reshape].
  by rewrite reshape_to_extents.
Qed.
End identity.

Lemma identity_pattern_returns_input_witness :
  rearrange (arange [2; 3; 4]%nat) "a b c -> a b c" ∅ = Ok (arange [2; 3; 4]%nat).
Proof. apply identity_pattern_returns_input; reflexivity. Defined.

Lemma div_mod_pair (h i j : nat) :
  (i < h)%nat → ((j * h + i) / h = j ∧ (j * h + i) `mod` h = i)%nat.
Proof.
  intros Hi. split.
  - rewrite Nat.div_add_l by lia. rewrite Nat.div_small by done. lia.
  - rewrite Nat.add_comm, Nat.Div0.mod_add. by apply Nat.mod_small.
Qed.

Lemma transposed_source_bound (h w flat : nat) :
  (flat < h * w)%nat → ((flat `mod` h) * w + flat / h < h * w)%nat.
Proof.
  intros Hlt. assert (h ≠ 0)%nat by (intros ->; lia).
  assert (flat `mod` h < h)%nat by (by apply Nat.mod_upper_bound).
  assert (flat / h < w)%nat by (by apply Nat.Div0.div_lt_upper_bound).
  nia.
Qed.

Section transpose2.
Context {A : Type}.
Implicit Types x y : ndarray A.

Lemma transpose_matrix x h w :
  shape x = [h; w] → Value.transpose x [1; 0]%nat = Ok (transposed2 x h w).
Proof.
  destruct x as [s d]. cbn [shape]. intros ->.
  unfold Value.transpose, transposed2, ndim, size. cbn [shape data length].
  cbn [Nat.eqb negb existsb Nat.leb orb]. rewrite bool_decide_eq_true_2.
  2:{ apply NoDup_cons. split; [by intros ?%list_elem_of_singleton|].
      apply NoDup_singleton. }
  cbn [negb fmap list_fmap lookup list_lookup default from_option id].
  f_equal. f_equal.
  replace (prod_list [h; w]) with (h * w)%nat by (cbn; lia).
  apply omap_lookup_ext. intros flat _.
  cbn [ravel unravel fmap list_fmap seq Value.position Nat.eqb lookup list_lookup
       default from_option id prod_list foldr].
  rewrite !Nat.mul_1_r, Nat.div_1_r. lia.
Qed.

Lemma transposed2_length x h w :
  shape x = [h; w] → wf x →
  length (data (transposed2 x h w)) = (h * w)%nat
  ∧ ∀ flat, (flat < h * w)%nat →
      data (transposed2 x h w) !! flat
      = data x !! ((flat `mod` h) * w + flat / h)%nat.
Proof.
  intros Hs Hwf. unfold wf, size in Hwf. rewrite Hs in Hwf. cbn in Hwf.
  apply omap_lookup_positions. intros i Hi.
  rewrite Hwf, Nat.mul_1_r. by apply transposed_source_bound.
Qed.

Lemma transposed2_involutive x h w :
  shape x = [h; w] → wf x → transposed2 (transposed2 x h w) w h = x.
Proof.
  intros Hs Hwf. destruct (transposed2_length x h w Hs Hwf) as [Hlen Hlook].
  assert (Hwf' : wf (transposed2 x h w)).
  { unfold wf, size. rewrite Hlen. cbn. lia. }
  destruct (transposed2_length (transposed2 x h w) w h eq_refl Hwf') as [Hlen2 Hlook2].
  destruct x as [s d]. cbn [shape] in Hs. subst s.
  unfold transposed2 at 1. cbn [shape]. f_equal.
  change (omap _ _) with (data (transposed2 (transposed2 {| shape := [h; w]; data := d |} h w) w h)).
  unfold wf, size in Hwf. cbn in Hwf. rewrite Nat.mul_1_r in Hwf.
  apply list_eq. intros g. destruct (decide (g < w * h)%nat) as [Hg|Hg].
  - rewrite Hlook2 by done.
    assert (w ≠ 0)%nat by (intros ->; lia).
    assert (g `mod` w < w)%nat by (by apply Nat.mod_upper_bound).
    assert (g / w < h)%nat by (apply Nat.Div0.div_lt_upper_bound; lia).
    rewrite Hlook by (rewrite (Nat.mul_comm h w); by apply transposed_source_bound).
    destruct (div_mod_pair h (g / w) (g `mod` w)) as [-> ->]; [done|].
    cbn [data]. f_equal. rewrite (Nat.div_mod g w) at 3 by done. lia.
  - rewrite !(proj2 (lookup_ge_None _ _)); [done| |]; cbn [data]; lia.
Qed.

Lemma rearrange_transpose_hw x h w :
  shape x = [h; w] → rearrange x "h w -> w h" ∅ = Ok (transposed2 x h w).
Proof.
  intros Hs. destruct x as [s d]. cbn [shape] in Hs. subst s. unfold rearrange.
  stage (validate_axes_lengths "h w -> w h" ∅) (Ok tt).
  stage (parse_pattern "h w -> w h") (Ok (["h"; "w"], ["w"; "h"])).
  stage (check_pattern ["h"; "w"] ["w"; "h"]) (Ok tt).
  stage (expand_ellipsis (length [h; w]) ["h"; "w"] ["w"; "h"])
        (Ok (["h"; "w"], ["w"; "h"], 0%nat)).
  stage (process_input_dims [h; w] ∅ ["h"; "w"])
        (Ok {| dim_sizes := <["w" := Z.of_nat w]> (<["h" := Z.of_nat h]> ∅);
               composite_dims := ∅; pos := 2;
               input_dim_to_pos := <["w" := 1%nat]> (<["h" := 0%nat]> ∅) |}).
  stage (is_pure_permutation ["h"; "w"] ["w"; "h"]
           (<["w" := 1%nat]> (<["h" := 0%nat]> ∅))) true.
  stage (build_permutation (<["w" := 1%nat]> (<["h" := 0%nat]> ∅)) ["w"; "h"])
        (Ok [1; 0]%nat).
  cbn [length Nat.ltb Nat.leb np_transpose value_numpy].
  rewrite (transpose_matrix _ h w) by done. cbn [mbind result_bind].
  stage (calc_output_shape ∅ (<["w" := Z.of_nat w]> (<["h" := Z.of_nat h]> ∅))
           0 ["w"; "h"])
        (Ok (Z.of_nat <$> [w; h], @nil (nat * Z))).
  unfold execute, apply_repeats, final_reshape.
  cbn [mret np_mret value_numpy result_ret mbind np_mbind result_bind try_except
       np_reshape].
  rewrite reshape_to_extents; [done|].
  unfold size. cbn. lia.
Qed.

Lemma rearrange_transpose_wh y w h :
  shape y = [w; h] → rearrange y "w h -> h w" ∅ = Ok (transposed2 y w h).
Proof.
  intros Hs. destruct y as [s d]. cbn [shape] in Hs. subst s. unfold rearrange.
  stage (validate_axes_lengths "w h -> h w" ∅) (Ok tt).
  stage (parse_pattern "w h -> h w") (Ok (["w"; "h"], ["h"; "w"])).
  stage (check_pattern ["w"; "h"] ["h"; "w"]) (Ok tt).
  stage (expand_ellipsis (length [w; h]) ["w"; "h"] ["h"; "w"])
        (Ok (["w"; "h"], ["h"; "w"], 0%nat)).
  stage (process_input_dims [w; h] ∅ ["w"; "h"])
        (Ok {| dim_sizes := <["h" := Z.of_nat h]> (<["w" := Z.of_nat w]> ∅);
               composite_dims := ∅; pos := 2;
               input_dim_to_pos := <["h" := 1%nat]> (<["w" := 0%nat]> ∅) |}).
  stage (is_pure_permutation ["w"; "h"] ["h"; "w"]
           (<["h" := 1%nat]> (<["w" := 0%nat]> ∅))) true.
  stage (build_permutation (<["h" := 1%nat]> (<["w" := 0%nat]> ∅)) ["h"; "w"])
        (Ok [1; 0]%nat).
  cbn [length Nat.ltb Nat.leb np_transpose value_numpy].
  rewrite (transpose_matrix _ w h) by done. cbn [mbind result_bind].
  stage (calc_output_shape ∅ (<["h" := Z.of_nat h]> (<["w" := Z.of_nat w]> ∅))
           0 ["h"; "w"])
        (Ok (Z.of_nat <$> [h; w], @nil (nat * Z))).
  unfold execute, apply_repeats, final_reshape.
  cbn [mret np_mret value_numpy result_ret mbind np_mbind result_bind try_except
       np_reshape].
  rewrite reshape_to_extents; [done|].
  unfold size. cbn. lia.
Qed.

(** X18. On a matrix the pattern [h w -> w h] succeeds, swaps the two
    extents, and puts the element at index [i, j] of the input at index
    [j, i] of the result. *)
Theorem transpose_pattern_swaps_indices x h w :
  shape x = [h; w] → wf x →
  ∃ y, rearrange x "h w -> w h" ∅ = Ok y
       ∧ shape y = [w; h]
       ∧ ∀ i j, (i < h)%nat → (j < w)%nat →
           is_Some (item x [i; j]) ∧ item y [j; i] = item x [i; j].
Proof.
  intros Hs Hwf. exists (transposed2 x h w).
  destruct (transposed2_length x h w Hs Hwf) as [Hlen Hlook].
  split; [by apply rearrange_transpose_hw|]. split; [done|].
  intros i j Hi Hj. unfold item, ndim. rewrite Hs. cbn [shape transposed2 length].
  rewrite !bool_decide_eq_true_2 by (split; [done|repeat constructor; done]).
  cbn [ravel prod_list foldr].
  replace (j * (h * 1) + (i * 1 + 0))%nat with (j * h + i)%nat by lia.
  replace (i * (w * 1) + (j * 1 + 0))%nat with (i * w + j)%nat by lia.
  change (omap _ _) with (data (transposed2 x h w)).
  rewrite Hlook by nia.
  destruct (div_mod_pair h i j Hi) as [-> ->]. split; [|done].
  apply lookup_lt_is_Some_2. unfold wf, size in Hwf. rewrite Hwf, Hs. cbn. nia.
Qed.

(** X19. Transposing a matrix with [h w -> w h] and the result with
    [w h -> h w] gives the matrix back. *)
Theorem double_transpose_is_identity x h w :
  shape x = [h; w] → wf x →
  (y ← rearrange x "h w -> w h" ∅; rearrange y "w h -> h w" ∅) = Ok x.
Proof.
  intros Hs Hwf. rewrite (rearrange_transpose_hw x h w Hs). cbn [mbind result_bind].
  rewrite (rearrange_transpose_wh (transposed2 x h w) w h eq_refl).
  by rewrite transposed2_involutive.
Qed.
End transpose2.

Lemma transpose_pattern_swaps_indices_witness :
  ∃ y, rearrange (arange [2; 3]%nat) "h w -> w h" ∅ = Ok y
       ∧ shape y = [3; 2]%nat
       ∧ ∀ i j, (i < 2)%nat → (j < 3)%nat →
           is_Some (item (arange [2; 3]%nat) [i; j])
           ∧ item y [j; i] = item (arange [2; 3]%nat) [i; j].
Proof. apply (transpose_pattern_swaps_indices (arange [2; 3]%nat)); reflexivity. Defined.

Lemma double_transpose_is_identity_witness :
  (y ← rearrange (arange [2; 3]%nat) "h w -> w h" ∅; rearrange y "w h -> h w" ∅)
  = Ok (arange [2; 3]%nat).
Proof. apply (double_transpose_is_identity (arange [2; 3]%nat) 2 3); reflexivity. Defined.

(** *** The permutation loop on a run of synthetic names *)

Lemma bound_names_synthetic i : bound_names (synthetic i) = [synthetic i].
Proof. unfold bound_names. by rewrite synthetic_starts_with_d. Qed.

Lemma permutation_synthetic_run (pm : gmap string nat) m : ∀ k permutation used_dims,
  (∀ i, (k ≤ i)%nat → synthetic i ∉ used_dims) →
  (∀ i, (k ≤ i < k + m)%nat → pm !! synthetic i = Some i) →
  ∃ used_dims',
    for_each (permutation_step pm) (permutation, used_dims) (synthetic <$> seq k m)
    = Ok (permutation ++ seq k m, used_dims').
Proof.
  induction m as [|m IH]; intros k permutation used_dims Hused Hpm.
  - exists used_dims. cbn. by rewrite app_nil_r.
  - cbn [seq fmap list_fmap for_each].
    assert (permutation_step pm (permutation, used_dims) (synthetic k)
            = Ok (permutation ++ [k], {[synthetic k]} ∪ used_dims)) as ->.
    { unfold permutation_step. rewrite synthetic_not_ellipsis.
      rewrite bool_decide_eq_true_2 by (apply Hused; lia).
      unfold py_getitem. rewrite Hpm by lia. done. }
    cbn [mbind result_bind].
    destruct (IH (S k) (permutation ++ [k]) ({[synthetic k]} ∪ used_dims))
      as (used' & ->).
    + intros i Hi [Heq%elem_of_singleton|Hin]%elem_of_union.
      * apply synthetic_inj in Heq. lia.
      * by apply (Hused i); [lia|].
    + intros i Hi. apply Hpm. lia.
    + exists used'. by rewrite <-app_assoc.
Qed.

Section ellipsis_identity.
Context {A : Type}.
Implicit Types x y : ndarray A.

(** X20. The pattern [... -> ...] returns a well-formed array of any
    rank, rank 0 included, as it is. *)
Theorem ellipsis_pattern_returns_input x :
  wf x → rearrange x "... -> ..." ∅ = Ok x.
Proof.
  intros Hwf. unfold rearrange.
  stage (validate_axes_lengths "... -> ..." ∅) (Ok tt).
  stage (parse_pattern "... -> ...") (Ok (["..."], ["..."])).
  stage (check_pattern ["..."] ["..."]) (Ok tt).
  set (s := shape x). set (n := length s).
  assert (expand_ellipsis n ["..."] ["..."]
          = Ok (synthetic_names n, synthetic_names n, n)) as ->.
  { unfold expand_ellipsis.
    change (index_or_minus1 "..." ["..."]) with 0.
    change (length (filter (λ d, d ≠ "...") ["..."])) with 0%nat.
    cbn [Z.leb Z.compare]. rewrite Z.sub_0_r.
    rewrite (proj2 (Z.ltb_ge _ _)) by lia. rewrite Nat2Z.id.
    cbn [raise_if mbind result_bind slice_until slice_from Z.ltb Z.compare Z.add
         Z.to_nat Pos.to_nat Pos.iter_op Nat.add take drop app].
    by rewrite app_nil_r. }
  cbn [lift value_numpy mbind np_mbind result_bind].
  (* the resolver *)
  destruct (process_synthetic_run s ∅ n 0%nat initial_state)
    as (st & Hrun & Hpos & Hsizes & _); [done|lia|].
  unfold process_input_dims, synthetic_names. rewrite Hrun.
  cbn [mbind result_bind].
  assert (Hpm : ∀ i, (0 ≤ i < 0 + n)%nat → input_dim_to_pos st !! synthetic i = Some i).
  { intros i Hi.
    apply (process_input_dims_last s ∅ (synthetic <$> seq 0 n) (synthetic i)
             initial_state st i (synthetic i) Hrun).
    - rewrite list_lookup_fmap, lookup_seq_lt by lia. done.
    - rewrite bound_names_synthetic. left.
    - intros dim' Hin. rewrite <-fmap_drop in Hin.
      apply list_elem_of_fmap in Hin as (j & -> & Hj).
      apply list_elem_of_lookup in Hj as (l & Hl).
      rewrite lookup_drop in Hl. apply lookup_seq in Hl as [Hl _].
      rewrite bound_names_synthetic.
      intros Heq%list_elem_of_singleton%synthetic_inj. lia. }
  (* the pure permutation *)
  assert (is_pure_permutation (synthetic <$> seq 0 n) (synthetic <$> seq 0 n)
            (input_dim_to_pos st) = true) as ->.
  { unfold is_pure_permutation. apply andb_true_iff. split; apply negb_true_iff.
    - apply not_true_is_false. intros (d & Hd & Hparen)%existsb_exists.
      apply list_elem_of_In, elem_of_app in Hd.
      assert (d ∈ synthetic <$> seq 0 n) as Hd' by (by destruct Hd).
      apply list_elem_of_fmap in Hd' as (i & -> & _).
      by rewrite synthetic_no_paren in Hparen.
    - apply not_true_is_false. intros (d & Hd & Hnone)%existsb_exists.
      apply list_elem_of_In, list_elem_of_filter in Hd as [_ Hd].
      apply list_elem_of_fmap in Hd as (i & -> & Hi%elem_of_seq).
      apply bool_decide_eq_true in Hnone. rewrite Hpm in Hnone by lia. done. }
  destruct (permutation_synthetic_run (input_dim_to_pos st) n 0%nat [] ∅)
    as (used & Hperm); [set_solver|done|].
  unfold build_permutation. rewrite Hperm.
  cbn [fmap result_fmap fst app lift value_numpy mbind np_mbind result_bind].
  assert (Hcur : ∀ b : bool,
            (if b then np_transpose x (seq 0 n) else result_ret (ndarray A) x) = Ok x)
    by (intros []; [apply (transpose_identity x Hwf)|done]).
  rewrite Hcur.
  cbn [mbind result_bind].
  (* the output shape and the reshape *)
  unfold calc_output_shape.
  rewrite (output_synthetic_run s ∅ (dim_sizes st) n n 0%nat); [|done|lia|done].
  cbn [mbind result_bind app].
  unfold execute, apply_repeats, final_reshape.
  cbn [mret np_mret value_numpy result_ret mbind np_mbind result_bind try_except
       np_reshape].
  subst n. rewrite drop_0, firstn_all. rewrite reshape_to_extents by done.
  subst s. by destruct x.
Qed.
End ellipsis_identity.

Lemma ellipsis_pattern_returns_input_witness :
  rearrange {| shape := []; data := [5] |} "... -> ..." ∅
  = Ok {| shape := []; data := [5] |}.
Proof. apply ellipsis_pattern_returns_input. reflexivity. Defined.

Section merging.
Context {A : Type}.
Implicit Types x y : ndarray A.

(** X21. Merging the two leading axes of a rank-3 array with
    [a b c -> (a b) c] multiplies their extents and keeps the elements in
    their row-major order. *)
Theorem merge_pattern_multiplies_leading_axes x a b c :
  shape x = [a; b; c] →
  rearrange x "a b c -> (a b) c" ∅
  = Ok {| shape := [(a * b)%nat; c]; data := data x |}.
Proof.
  intros Hs. destruct x as [s d]. cbn [shape] in Hs. subst s. unfold rearrange.
  stage (validate_axes_lengths "a b c -> (a b) c" ∅) (Ok tt).
  stage (parse_pattern "a b c -> (a b) c") (Ok (["a"; "b"; "c"], ["(a b)"; "c"])).
  stage (check_pattern ["a"; "b"; "c"] ["(a b)"; "c"]) (Ok tt).
  stage (expand_ellipsis (length [a; b; c]) ["a"; "b"; "c"] ["(a b)"; "c"])
        (Ok (["a"; "b"; "c"], ["(a b)"; "c"], 0%nat)).
  stage (process_input_dims [a; b; c] ∅ ["a"; "b"; "c"])
        (Ok {| dim_sizes := <["c" := Z.of_nat c]> (<["b" := Z.of_nat b]> (<["a" := Z.of_nat a]> ∅));
               composite_dims := ∅; pos := 3;
               input_dim_to_pos := <["c" := 2%nat]> (<["b" := 1%nat]> (<["a" := 0%nat]> ∅)) |}).
  stage (is_pure_permutation ["a"; "b"; "c"] ["(a b)"; "c"]
           (<["c" := 2%nat]> (<["b" := 1%nat]> (<["a" := 0%nat]> ∅)))) false.
  stage (calc_output_shape ∅
           (<["c" := Z.of_nat c]> (<["b" := Z.of_nat b]> (<["a" := Z.of_nat a]> ∅)))
           0 ["(a b)"; "c"])
        (Ok ([1 * Z.of_nat a * Z.of_nat b; Z.of_nat c], @nil (nat * Z))).
  unfold execute, apply_repeats, final_reshape.
  cbn [mret np_mret value_numpy result_ret mbind np_mbind result_bind try_except
       np_reshape].
  replace [1 * Z.of_nat a * Z.of_nat b; Z.of_nat c]
    with (Z.of_nat <$> [(a * b)%nat; c]) by (cbn; do 2 f_equal; lia).
  rewrite reshape_to_extents; [done|]. unfold size. cbn. lia.
Qed.
End merging.

Lemma merge_pattern_multiplies_leading_axes_witness :
  rearrange (arange [3; 4; 5]%nat) "a b c -> (a b) c" ∅
  = Ok {| shape := [(3 * 4)%nat; 5%nat]; data := data (arange [3; 4; 5]%nat) |}.
Proof. apply merge_pattern_multiplies_leading_axes. reflexivity. Defined.

Section repeat_once.
Context {A : Type}.
Implicit Types x y : ndarray A.

Lemma repeat_data_once inner (d : list A) :
  Value.repeat_data inner 1 (length d) d = d.
Proof.
  unfold Value.repeat_data. rewrite Nat.mul_1_r.
  rewrite (omap_lookup_ext d _ (λ i, i)); [apply omap_lookup_seq|].
  intros flat _. rewrite Nat.div_1_r.
  destruct inner as [|inner]; [cbn; lia|].
  rewrite (Nat.div_mod flat (S inner)) at 3 by done. lia.
Qed.

(** X15. A single repeat instruction of size 1 at an index within the
    rank: when the array has room for the two axes that the repeat stage
    inserts, no element changes and the executor gives what the final
    reshape alone gives; otherwise an insertion passes NumPy's limit on the
    number of axes and the executor raises [ValueError]. *)
Theorem repeat_of_size_one_changes_nothing x idx final_shape :
  wf x → (idx ≤ ndim x)%nat →
  execute x [(idx, 1)] final_shape
  = if (ndim x + 2 <=? NPY_MAXDIMS)%nat then final_reshape x final_shape
    else Raise ValueError.
Proof.
  intros Hwf Hidx. unfold execute, apply_repeats.
  cbn [sorted_desc foldr insert_desc for_each_array mbind np_mbind value_numpy
       result_bind np_expand_dims np_repeat mret np_mret result_ret].
  destruct (ndim x + 2 <=? NPY_MAXDIMS)%nat eqn:Hroom.
  2: { apply Nat.leb_gt in Hroom.
       destruct (decide (NPY_MAXDIMS ≤ ndim x)%nat) as [Hmax|Hmax].
       - by rewrite (expand_dims_at_limit x idx) by done.
       - rewrite (expand_dims_in_range x idx) by (done || lia).
         cbn [mbind result_bind result_ret].
         rewrite (expand_dims_at_limit (expanded x idx) idx);
           [done|rewrite expanded_ndim; lia|rewrite expanded_ndim; lia]. }
  apply Nat.leb_le in Hroom.
  rewrite (expand_dims_in_range x idx) by (done || lia).
  cbn [mbind result_bind result_ret].
  rewrite (expand_dims_in_range (expanded x idx) idx) by (rewrite expanded_ndim; lia).
  cbn [mbind result_bind result_ret].
  rewrite repeat_expanded by (rewrite expanded_ndim; lia).
  cbn [Z.ltb Z.compare mbind result_bind result_ret].
  apply final_reshape_ext; cbn [shape data].
  - unfold size, expanded. cbn [shape]. unfold ndim in Hidx.
    rewrite take_inserted_axis, drop_inserted_axis by done.
    rewrite <-(take_drop idx (shape x)) at 3.
    rewrite !prod_list_app. change (Z.to_nat 1) with 1%nat.
    unfold prod_list. cbn [foldr]. lia.
  - rewrite expanded_size. unfold wf in Hwf. rewrite <-Hwf.
    change (Z.to_nat 1) with 1%nat. apply repeat_data_once.
Qed.
End repeat_once.

Lemma repeat_of_size_one_changes_nothing_witness :
  execute (arange [2; 3]%nat) [(1%nat, 1)] [2; 1; 3]
  = if (ndim (arange [2; 3]%nat) + 2 <=? NPY_MAXDIMS)%nat
    then final_reshape (arange [2; 3]%nat) [2; 1; 3]
    else Raise ValueError.
Proof.
  apply repeat_of_size_one_changes_nothing; [reflexivity|unfold ndim; simpl; lia].
Defined.

(** *** Ellipsis expansion *)

Lemma index_or_minus1_absent (x : string) l : x ∉ l → index_or_minus1 x l = -1.
Proof.
  induction l as [|y l IH]; intros Hnot; [done|]. cbn [index_or_minus1].
  apply not_elem_of_cons in Hnot as [Hne Hnot].
  rewrite bool_decide_eq_false_2 by done. by rewrite IH.
Qed.

Lemma index_or_minus1_first (x : string) pre post :
  x ∉ pre → index_or_minus1 x (pre ++ x :: post) = Z.of_nat (length pre).
Proof.
  induction pre as [|y pre IH]; intros Hnot; cbn [index_or_minus1 app length].
  - by rewrite bool_decide_eq_true_2.
  - apply not_elem_of_cons in Hnot as [Hne Hnot].
    rewrite bool_decide_eq_false_2 by done. rewrite IH by done.
    destruct (Z.of_nat (length pre) <? 0) eqn:Hneg; lia.
Qed.

Lemma filter_absent (x : string) (l : list string) : x ∉ l → filter (λ d, d ≠ x) l = l.
Proof.
  induction l as [|y l IH]; intros Hnot; [done|].
  apply not_elem_of_cons in Hnot as [Hne Hnot].
  rewrite filter_cons, decide_True by done. by rewrite IH.
Qed.

Lemma filter_present_nil (x : string) (l : list string) : filter (λ d, d = x) l = [] → x ∉ l.
Proof.
  intros Hnil Hin.
  assert (x ∈ filter (λ d, d = x) l) as Hf by (by apply list_elem_of_filter).
  rewrite Hnil in Hf. by apply elem_of_nil in Hf.
Qed.

Lemma absent_not_ellipsis (l : list string) : "..." ∉ l → Forall (λ d, is_ellipsis d = false) l.
Proof.
  intros Hnot. apply Forall_forall. intros d Hd.
  apply bool_decide_eq_false_2. by intros ->.
Qed.

(** X22. For a pattern that passed the pattern validation and has an
    ellipsis in its input, a successful expansion leaves no ellipsis among
    the input tokens and yields one input token per axis of the tensor:
    the ellipsis stands for the axes that the other tokens do not take. *)
Theorem ellipsis_expansion_names_every_axis
    (ndim : nat) input_dims output_dims full_input_dims full_output_dims n_ellipsis :
  "..." ∈ input_dims →
  check_pattern input_dims output_dims = Ok tt →
  expand_ellipsis ndim input_dims output_dims
  = Ok (full_input_dims, full_output_dims, n_ellipsis) →
  length full_input_dims = ndim
  ∧ Forall (λ d, is_ellipsis d = false) full_input_dims
  ∧ (length input_dims - 1 + n_ellipsis = ndim)%nat.
Proof.
  intros Hin Hcheck Hexp.
  apply list_elem_of_split_l in Hin as (pre & post & -> & Hpre).
  (* at most one ellipsis: none after the first *)
  assert (Hpost : "..." ∉ post).
  { revert Hcheck. unfold check_pattern.
    destruct (existsb _ _); [done|]. cbn [raise_if mbind result_bind].
    destruct (1 <? length (filter (λ dim, dim = "...") (pre ++ "..." :: post)))%nat
      eqn:Hcount; [done|].
    intros _. apply Nat.ltb_ge in Hcount.
    rewrite filter_app, filter_cons, decide_True in Hcount by done.
    rewrite length_app in Hcount. cbn [length] in Hcount.
    apply filter_present_nil. apply nil_length_inv. lia. }
  revert Hexp. unfold expand_ellipsis.
  rewrite index_or_minus1_first by done.
  rewrite (proj2 (Z.leb_le 0 _)) by lia.
  rewrite filter_app, filter_cons, decide_False by (by intros []).
  rewrite !filter_absent by done.
  destruct (_ <? 0) eqn:Hneg; [done|]. apply Z.ltb_ge in Hneg.
  cbn [raise_if mbind result_bind]. intros [= <- _ <-].
  unfold slice_until, slice_from.
  rewrite !(proj2 (Z.ltb_ge _ 0)) by lia.
  rewrite Nat2Z.id.
  replace (Z.to_nat (Z.of_nat (length pre) + 1)) with (S (length pre)) by lia.
  rewrite take_app_length.
  assert (Hdrop : drop (S (length pre)) (pre ++ "..." :: post) = post).
  { rewrite (cons_middle "..." pre post), app_assoc. apply drop_app_length'.
    rewrite length_app. cbn [length]. lia. }
  rewrite Hdrop.
  rewrite length_app in Hneg.
  split; [|split].
  - rewrite !length_app. unfold synthetic_names. rewrite length_fmap, length_seq. lia.
  - apply Forall_app. split; [by apply absent_not_ellipsis|].
    apply Forall_app. split; [|by apply absent_not_ellipsis].
    apply Forall_forall. intros d (i & -> & _)%list_elem_of_fmap.
    apply synthetic_not_ellipsis.
  - rewrite !length_app. cbn [length]. lia.
Qed.

Lemma ellipsis_expansion_names_every_axis_witness :
  length ["b"; "_d0"; "_d1"; "c"] = 4%nat
  ∧ Forall (λ d, is_ellipsis d = false) ["b"; "_d0"; "_d1"; "c"]
  ∧ (length ["b"; "..."; "c"] - 1 + 2 = 4)%nat.
Proof.
  apply (ellipsis_expansion_names_every_axis 4 ["b"; "..."; "c"] ["c"; "..."; "b"]
           ["b"; "_d0"; "_d1"; "c"] ["c"; "_d0"; "_d1"; "b"] 2).
  - apply elem_of_cons. right. apply elem_of_cons. by left.
  - reflexivity.
  - reflexivity.
Defined.

(** *** A length hint for a plain axis *)

Section hinted_axis.
Context {A : Type}.
Implicit Types x y : ndarray A.

(** X23. A length hint for a plain input axis that differs from the
    extent of the axis, the extent not being 1, makes [rearrange] raise the
    "dimension size mismatch" error. *)
Theorem hint_disagreeing_with_extent_raises x (n : nat) (hint : Z) :
  shape x = [n] → Z.of_nat n ≠ hint → n ≠ 1%nat →
  rearrange x "a -> a" {[ "a" := hint ]}
  = Raise (EinopsError DimensionSizeMismatch).
Proof.
  intros Hs Hne Hone. destruct x as [s d]. cbn [shape] in Hs. subst s.
  unfold rearrange.
  stage (validate_axes_lengths "a -> a" ({[ "a" := hint ]} : gmap string Z)) (Ok tt).
  stage (parse_pattern "a -> a") (Ok (["a"], ["a"])).
  stage (check_pattern ["a"] ["a"]) (Ok tt).
  stage (expand_ellipsis (length [n]) ["a"] ["a"]) (Ok (["a"], ["a"], 0%nat)).
  unfold process_input_dims. cbn [for_each].
  assert (Hstep : process_input_dim [n] {[ "a" := hint ]} initial_state "a"
                  = Raise (EinopsError DimensionSizeMismatch)).
  { unfold process_input_dim.
    change (Str.startswith "_d" "a") with false.
    change (Str.contains "(" "a") with false.
    cbn [initial_state pos length Nat.leb raise_if mbind result_bind py_index
         lookup list_lookup fmap result_fmap].
    rewrite lookup_singleton_eq.
    rewrite (proj2 (Z.eqb_neq _ _) Hne).
    rewrite (proj2 (Z.eqb_neq (Z.of_nat n) 1)) by lia.
    reflexivity. }
  rewrite Hstep. reflexivity.
Qed.

(** X24. A length hint equal to the extent of a plain axis is accepted
    and changes nothing, also when the extent is 1 and the axis goes through
    the repeat stage. *)
Theorem hint_agreeing_with_extent_is_accepted x (n : nat) :
  shape x = [n] → wf x →
  rearrange x "a -> a" {[ "a" := Z.of_nat n ]} = Ok x.
Proof.
  intros Hs Hwf. destruct x as [s d]. cbn [shape] in Hs. subst s.
  destruct (decide (n = 1%nat)) as [->|Hone].
  - (* extent 1: the hinted axis goes through the repeat stage *)
    unfold wf, size in Hwf. cbn in Hwf.
    destruct d as [|a [|? ?]]; try discriminate Hwf.
    vm_compute. reflexivity.
  - unfold rearrange.
    stage (validate_axes_lengths "a -> a" ({[ "a" := Z.of_nat n ]} : gmap string Z)) (Ok tt).
    stage (parse_pattern "a -> a") (Ok (["a"], ["a"])).
    stage (check_pattern ["a"] ["a"]) (Ok tt).
    stage (expand_ellipsis (length [n]) ["a"] ["a"]) (Ok (["a"], ["a"], 0%nat)).
    assert (Hin : process_input_dims [n] {[ "a" := Z.of_nat n ]} ["a"]
                  = Ok {| dim_sizes := {[ "a" := Z.of_nat n ]}; composite_dims := ∅;
                          pos := 1; input_dim_to_pos := {[ "a" := 0%nat ]} |}).
    { unfold process_input_dims. cbn [for_each]. unfold process_input_dim.
      change (Str.startswith "_d" "a") with false.
      change (Str.contains "(" "a") with false.
      cbn [initial_state pos length Nat.leb raise_if mbind result_bind py_index
           lookup list_lookup fmap result_fmap dim_sizes composite_dims input_dim_to_pos].
      rewrite lookup_singleton_eq, Z.eqb_refl.
      cbn [negb andb raise_if mbind result_bind]. reflexivity. }
    rewrite Hin.
    cbn [lift value_numpy mbind np_mbind result_bind mret np_mret result_ret np_shape
         shape data dim_sizes input_dim_to_pos pos composite_dims].
    stage (is_pure_permutation ["a"] ["a"] ({[ "a" := 0%nat ]} : gmap string nat)) true.
    stage (build_permutation ({[ "a" := 0%nat ]} : gmap string nat) ["a"]) (Ok [0%nat]).
    cbn [length Nat.ltb Nat.leb].
    assert (Hout : calc_output_shape {[ "a" := Z.of_nat n ]} {[ "a" := Z.of_nat n ]} 0 ["a"]
                   = Ok ([Z.of_nat n], [])).
    { unfold calc_output_shape. cbn [for_each]. unfold output_dim_step.
      change (is_ellipsis "a") with false. change (Str.contains "(" "a") with false.
      rewrite !lookup_singleton_eq.
      rewrite bool_decide_eq_false_2 by done.
      rewrite bool_decide_eq_false_2 by (intros [= H]; lia).
      reflexivity. }
    rewrite Hout.
    cbn [lift value_numpy mbind np_mbind result_bind mret np_mret result_ret].
    unfold execute, apply_repeats, final_reshape.
    cbn [mret np_mret value_numpy result_ret mbind np_mbind result_bind try_except np_reshape].
    by rewrite (reshape_to_extents _ [n]).
Qed.
End hinted_axis.

Lemma hint_disagreeing_with_extent_raises_witness :
  rearrange (arange [4]%nat) "a -> a" {[ "a" := 3 ]}
  = Raise (EinopsError DimensionSizeMismatch).
Proof. apply (hint_disagreeing_with_extent_raises (arange [4]%nat) 4 3); [reflexivity|lia|lia]. Defined.

Lemma hint_agreeing_with_extent_is_accepted_witness :
  rearrange (arange [4]%nat) "a -> a" {[ "a" := Z.of_nat 4 ]} = Ok (arange [4]%nat).
Proof. apply (hint_agreeing_with_extent_is_accepted (arange [4]%nat) 4); reflexivity. Defined.
